(** * MongoDataAccess: field renaming and identifier coercion

    A shallow embedding of [src/mongo-data-access.class.ts].  JavaScript
    objects are association lists in insertion order, the asynchronous
    facade methods are computations in a writer/error monad that records the
    calls made on the mongodb driver, and the one method whose aliasing
    matters ([mapDataToDocument]) is also given over an explicit object
    store. *)

From Stdlib Require Import String Ascii List ZArith Lia Bool DecimalString.
Import ListNotations.
Open Scope string_scope.

Set Implicit Arguments.
Set Warnings "-register-all".

(** ** Values and the imported mongodb names *)

(** A JavaScript value as the facade sees it.  [Oid] is the class
    [ObjectId] imported from "mongodb".  A number [VNum n] is a safe
    integer, [|n| < 2^53]: the facade never computes on numbers. *)
Inductive value (Oid : Type) : Type :=
| VUndefined
| VNull
| VBool (b : bool)
| VNum (n : Z)
| VStr (s : string)
| VOid (o : Oid)
| VArr (items : list (value Oid))
| VDoc (fields : list (string * value Oid)).

Arguments VUndefined {Oid}.
Arguments VNull {Oid}.
Arguments VBool {Oid} b.
Arguments VNum {Oid} n.
Arguments VStr {Oid} s.

(** What the source imports from "mongodb" and does not define itself:
    the class [ObjectId] with its constructor and [toString], and the
    opaque [FindOptions].  [ObjectId_new v] is [new ObjectId(v)] for a [v]
    that is not already an [ObjectId]; [None] stands for the exception the
    constructor raises.  Where the driver makes up an identifier ([v] is
    [undefined], [null] or a number), the identifier made up is the answer
    of the function. *)
Class Mongodb : Type := {
  ObjectId : Type;
  FindOptions : Type;
  ObjectId_new : value ObjectId -> option ObjectId;
  ObjectId_toString : ObjectId -> string
}.

Definition Value `{Mongodb} : Type := value ObjectId.

(** A [Document]: own enumerable properties in insertion order.  Names
    that JavaScript enumerates first (integer-like ones) are not set
    apart: the general properties below are stated through lookups, not
    through the order of enumeration. *)
Definition Document `{Mongodb} : Type := list (string * Value).

(** ** Outcomes *)

Inductive error : Type :=
| DriverError (what : string)
| BSONError
| Error (message : string).

Inductive result (A : Type) : Type :=
| Ok (a : A)
| Throw (e : error).

Arguments Throw {A} e.

Definition rbind {A B} (r : result A) (k : A -> result B) : result B :=
  match r with
  | Ok a => k a
  | Throw e => Throw e
  end.

Declare Scope result_scope.
Delimit Scope result_scope with result.
Notation "x <- r ;; k" := (rbind r (fun x => k))
  (at level 100, r at next level, right associativity) : result_scope.

(** [Array.prototype.map] with a callback that may throw: the first
    exception ends the traversal. *)
Fixpoint array_map {A B} (f : A -> result B) (items : list A) : result (list B) :=
  match items with
  | [] => Ok []
  | item :: rest =>
      (y <- f item ;; ys <- array_map f rest ;; Ok (y :: ys))%result
  end.

(** ** Objects *)

Section Objects.
Context `{Mongodb}.

(** [hasOwnProperty] and [d[k]] as one lookup. *)
Fixpoint getProp (k : string) (d : Document) : option Value :=
  match d with
  | [] => None
  | (k', v) :: d' => if String.eqb k k' then Some v else getProp k d'
  end.

Definition hasOwnProperty (d : Document) (k : string) : bool :=
  match getProp k d with Some _ => true | None => false end.

(** [d[k]]: an absent property reads as [undefined]. *)
Definition readProp (d : Document) (k : string) : Value :=
  match getProp k d with Some v => v | None => VUndefined end.

(** [d[k] = v]: an existing property keeps its place, a new one is
    appended.  On an object with no own property [__proto__] the
    assignment [d["__proto__"] = v] goes to the setter inherited from
    [Object.prototype]: it gives the object no property.  (It may change
    the prototype, which is no part of a [Document]: the code reads own
    properties, and the one read that reaches the prototype, line 113,
    decides a [delete] that has no effect when [_id] is not an own
    property.) *)
Fixpoint setProp (k : string) (v : Value) (d : Document) : Document :=
  match d with
  | [] => if String.eqb k "__proto__" then [] else [(k, v)]
  | (k', v') :: d' =>
      if String.eqb k k' then (k, v) :: d' else (k', v') :: setProp k v d'
  end.

(** Whether [d[k] = v] leaves [d] with an own property [k]. *)
Definition assignable (d : Document) (k : string) : bool :=
  negb (String.eqb k "__proto__") || hasOwnProperty d k.

(** [delete d[k]]. *)
Fixpoint deleteProp (k : string) (d : Document) : Document :=
  match d with
  | [] => []
  | (k', v') :: d' =>
      if String.eqb k k' then deleteProp k d' else (k', v') :: deleteProp k d'
  end.

Definition keys (d : Document) : list string := map fst d.

(** [Object.assign(target, source)]: the own properties of [source] are
    assigned to [target] one by one, so an own property [__proto__] of
    [source] is not copied to a [target] that has none. *)
Definition assign (target source : Document) : Document :=
  fold_left (fun t kv => setProp (fst kv) (snd kv) t) source target.

(** [v == null]. *)
Definition isNullish (v : Value) : bool :=
  match v with
  | VUndefined | VNull => true
  | _ => false
  end.

(** A JavaScript object never has two properties of one name. *)
Definition wellFormed (d : Document) : Prop := NoDup (keys d).
End Objects.

(** ** Configuration *)

(** An entry of [idFields]: a string compared with [===], or a [RegExp]
    given by what [key.match] answers on it. *)
Inductive fieldSelector : Type :=
| Exact (name : string)
| RegExp (matches : string -> bool).

(** [DataAccessOptions]. *)
Record DataAccessOptions : Type := {
  opt_fieldsProps : option (list (string * string));
  opt_idFields : option (list fieldSelector)
}.

(** [Map.prototype.get]. *)
Fixpoint Map_get (m : list (string * string)) (k : string) : option string :=
  match m with
  | [] => None
  | (k', v) :: m' => if String.eqb k k' then Some v else Map_get m' k
  end.

(** [Map.prototype.set]. *)
Fixpoint Map_set (k v : string) (m : list (string * string)) : list (string * string) :=
  match m with
  | [] => [(k, v)]
  | (k', v') :: m' =>
      if String.eqb k k' then (k, v) :: m' else (k', v') :: Map_set k v m'
  end.

(** [new Map(entries)]. *)
Definition Map_new (entries : list (string * string)) : list (string * string) :=
  fold_left (fun m kv => Map_set (fst kv) (snd kv) m) entries [].

(** The private state of a [MongoDataAccess]: [fieldsPropsMap] holds the
    entries (stored field, application property) in insertion order. *)
Record MongoDataAccess : Type := {
  collectionName : string;
  fieldsPropsMap : list (string * string);
  idFields : list fieldSelector
}.

(** The constructor, the connection apart. *)
Definition constructor (name : string) (options : option DataAccessOptions) : MongoDataAccess :=
  let fieldsProps := match options with Some o => opt_fieldsProps o | None => None end in
  let ids := match options with Some o => opt_idFields o | None => None end in
  {| collectionName := name;
     fieldsPropsMap := Map_new (match fieldsProps with Some fp => fp | None => [] end);
     idFields := match ids with Some l => l | None => [] end |}.

(** ** The mapper *)

Section Mapper.
Context `{Mongodb}.
Variable this : MongoDataAccess.

(** One turn of the loop over [fieldsPropsMap.entries()]. *)
Definition renameEntry (dataObject document : Document) (entry : string * string) : Document :=
  let (field, prop) := entry in
  if hasOwnProperty dataObject prop then
    let value := readProp dataObject prop in
    deleteProp prop (setProp field value document)
  else document.

(** Lines 104 to 112 of [mapDataToDocument]: the two copies and the
    renaming loop. *)
Definition renameFields (data : Document) : Document :=
  let dataObject := assign [] data in
  let document := assign [] dataObject in
  fold_left (renameEntry dataObject) (fieldsPropsMap this) document.

(** [mapDataToDocument]; [None] is a [null] argument. *)
Definition mapDataToDocument (data : option Document) : Document :=
  match data with
  | None => []
  | Some data =>
      let document := renameFields data in
      let _id := readProp document "_id" in
      if isNullish _id then deleteProp "_id" document else document
  end.

(** [mapDocumentToData]. *)
Definition mapDocumentToData (document : Document) : Document :=
  let documentObject := assign [] document in
  fold_left
    (fun data fieldName =>
       let value := readProp documentObject fieldName in
       let prop := match Map_get (fieldsPropsMap this) fieldName with
                   | Some p => p
                   | None => fieldName
                   end in
       setProp prop value data)
    (keys documentObject) [].

(** The local [parseValue] of [parseStringsIDs]. *)
Definition parseValue (v : Value) : result Value :=
  match v with
  | VOid o => Ok (VStr (ObjectId_toString o))
  | _ => match ObjectId_new v with
         | Some o => Ok (VOid o)
         | None => Throw BSONError
         end
  end.

(** The body of the loop over [idFields], for one selector. *)
Definition parseSelector (key : string) (v : Value) (document : Document)
    (selector : fieldSelector) : result Document :=
  match selector with
  | RegExp matches =>
      if matches key then
        match v with
        | VArr items =>
            (items' <- array_map parseValue items ;;
             Ok (setProp key (VArr items') document))%result
        | _ => (v' <- parseValue v ;; Ok (setProp key v' document))%result
        end
      else Ok document
  | Exact name =>
      if String.eqb key name then
        (v' <- parseValue v ;; Ok (setProp key v' document))%result
      else Ok document
  end.

Fixpoint parseSelectors (key : string) (v : Value) (selectors : list fieldSelector)
    (document : Document) : result Document :=
  match selectors with
  | [] => Ok document
  | selector :: rest =>
      (document' <- parseSelector key v document selector ;;
       parseSelectors key v rest document')%result
  end.

(** The loop [for (const key in document)]; the keys are those the
    document has when the loop starts. *)
Fixpoint parseKeys (ks : list string) (document : Document) : result Document :=
  match ks with
  | [] => Ok document
  | key :: rest =>
      let v := readProp document key in
      (document' <- parseSelectors key v (idFields this) document ;;
       parseKeys rest document')%result
  end.

(** [parseStringsIDs]. *)
Definition parseStringsIDs (document : Document) : result Document :=
  parseKeys (keys document) document.
End Mapper.

(** ** The facade over the driver *)

(** The calls the facade makes on [this.collection] and
    [this.connection]. *)
Inductive call `{Mongodb} : Type :=
| CountDocuments (filter : Document)
| DeleteMany (filter : Document)
| ListCollections (name : string)
| DropCollection
| InsertOne (document : Document)
| Find (filter : Document) (options : option FindOptions)
| FindOne (filter : Document) (options : option FindOptions)
| UpdateMany (filter : Document) (values : Document).

(** What the driver answers.  [deleteMany], [insertOne] and [updateMany]
    answer with the one member the facade reads ([deletedCount],
    [insertedId], [modifiedCount]); [listCollections] with the names of
    the descriptors of [toArray()]. *)
Record Driver `{Mongodb} : Type := {
  countDocuments : Document -> result Z;
  deleteMany : Document -> result Z;
  listCollections : string -> result (list string);
  collection_drop : result bool;
  insertOne : Document -> result Value;
  find : Document -> option FindOptions -> result (list Document);
  findOne : Document -> option FindOptions -> result (option Document);
  updateMany : Document -> Document -> result Z
}.

Section Facade.
Context `{Mongodb}.

(** An [async] method: the driver calls made, in order, and how the
    promise settles. *)
Definition Async (A : Type) : Type := (list call * result A)%type.

Definition resolve {A} (a : A) : Async A := ([], Ok a).
Definition reject {A} (e : error) : Async A := ([], Throw e).

Definition bind {A B} (m : Async A) (k : A -> Async B) : Async B :=
  match m with
  | (calls, Ok a) => let (calls', r) := k a in ((calls ++ calls')%list, r)
  | (calls, Throw e) => (calls, Throw e)
  end.

(** [await] of one driver call. *)
Definition await {A} (c : call) (answer : result A) : Async A := ([c], answer).

(** A synchronous step that may throw. *)
Definition lift {A} (r : result A) : Async A := ([], r).

Definition calls {A} (m : Async A) : list call := fst m.
Definition outcome {A} (m : Async A) : result A := snd m.
End Facade.

Declare Scope async_scope.
Delimit Scope async_scope with async.
Notation "x <- m ;; k" := (bind m (fun x => k))
  (at level 100, m at next level, right associativity) : async_scope.

Section Operations.
Context `{Mongodb}.
Variable this : MongoDataAccess.
Variable driver : Driver.

Definition count (filter : Document) : Async Z :=
  await (CountDocuments filter) (countDocuments driver filter).

(** [delete]. *)
Definition delete (filter : Document) : Async Z :=
  (deletedCount <- await (DeleteMany filter) (deleteMany driver filter) ;;
   resolve deletedCount)%async.

Definition drop (sure : bool) : Async bool :=
  if sure then
    let filter := collectionName this in
    (collections <- await (ListCollections filter) (listCollections driver filter) ;;
     if (1 <? length collections)%nat then
       reject (Error ("More than 1 collection found with name: " ++ collectionName this))
     else if (length collections =? 1)%nat then
       _ <- await DropCollection (collection_drop driver) ;;
       resolve true
     else resolve true)%async
  else resolve false.

(** The template literal [`${v}`]: [String(v)].  A safe integer prints
    in decimal. *)
Fixpoint templateString (v : Value) : string :=
  match v with
  | VUndefined => "undefined"
  | VNull => "null"
  | VBool true => "true"
  | VBool false => "false"
  | VNum n => NilZero.string_of_int (Z.to_int n)
  | VStr s => s
  | VOid o => ObjectId_toString o
  | VArr items =>
      (fix join (l : list Value) : string :=
         match l with
         | [] => ""
         | x :: rest =>
             let s := if isNullish x then "" else templateString x in
             match rest with
             | [] => s
             | _ => s ++ "," ++ join rest
             end
         end) items
  | VDoc _ => "[object Object]"
  end.

Definition insert (data : option Document) : Async string :=
  let mappedData := mapDataToDocument this data in
  (parsedData <- lift (parseStringsIDs this mappedData) ;;
   insertedId <- await (InsertOne parsedData) (insertOne driver parsedData) ;;
   resolve (templateString insertedId))%async.

(** [filter ?? {}]. *)
Definition orEmpty (filter : option Document) : Document :=
  match filter with
  | Some f => f
  | None => []
  end.

(** The record handed back for one driver document: lines 166 and 167 of
    [select], 179 and 180 of [selectOne]. *)
Definition parseDocument (document : Document) : result Document :=
  let mappedData := mapDocumentToData this document in
  parseStringsIDs this mappedData.

Definition select (filter : option Document) (options : option FindOptions)
    : Async (list Document) :=
  let parsedFilter := mapDataToDocument this (Some (orEmpty filter)) in
  (documents <- await (Find parsedFilter options) (find driver parsedFilter options) ;;
   lift (array_map parseDocument documents))%async.

Definition selectOne (filter : option Document) (options : option FindOptions)
    : Async (option Document) :=
  let parsedFilter := mapDataToDocument this (Some (orEmpty filter)) in
  (document <- await (FindOne parsedFilter options) (findOne driver parsedFilter options) ;;
   match document with
   | None => resolve None
   | Some document =>
       lift (r <- parseDocument document ;; Ok (Some r))%result
   end)%async.

Definition update (filter : option Document) (values : Document) : Async Z :=
  let parsedFilter := mapDataToDocument this (Some (orEmpty filter)) in
  (modifiedCount <- await (UpdateMany parsedFilter values)
                          (updateMany driver parsedFilter values) ;;
   resolve modifiedCount)%async.
End Operations.

(** A driver whose every call fails with [e]: a lost connection. *)
Definition failing `{Mongodb} (e : error) : Driver :=
  {| countDocuments := fun _ => Throw e;
     deleteMany := fun _ => Throw e;
     listCollections := fun _ => Throw e;
     collection_drop := Throw e;
     insertOne := fun _ => Throw e;
     find := fun _ _ => Throw e;
     findOne := fun _ _ => Throw e;
     updateMany := fun _ _ => Throw e |}.

(** ** Notions the properties are stated with *)

Section Notions.
Context `{Mongodb}.
Variable this : MongoDataAccess.

(** [const { _id } = document] at line 113: the primary identifier of
    [data], read after the renaming loop. *)
Definition primaryIdentifier (data : option Document) : Value :=
  match data with
  | None => VUndefined
  | Some d => readProp (renameFields this d) "_id"
  end.

(** The test an entry of [idFields] makes on a key (lines 147 and 153). *)
Definition selects (key : string) (selector : fieldSelector) : bool :=
  match selector with
  | Exact name => String.eqb key name
  | RegExp matches => matches key
  end.

Definition selected (key : string) : bool :=
  existsb (selects key) (idFields this).

(** [this.fieldsPropsMap.get(fieldName) ?? fieldName] at line 127. *)
Definition applicationName (fieldName : string) : string :=
  match Map_get (fieldsPropsMap this) fieldName with
  | Some p => p
  | None => fieldName
  end.

(** Two objects with the same properties, whatever their order. *)
Definition sameProperties (d1 d2 : Document) : Prop :=
  forall k, getProp k d1 = getProp k d2.

(** Where a property of the renamed document comes from: the value is
    one the caller gave, under the same name or under the application
    name of a rename entry. *)
Definition fromData (data : Document) (k : string) (v : Value) : Prop :=
  exists k', In (k', v) data /\ (k' = k \/ In (k, k') (fieldsPropsMap this)).

(** Whether [k] is the application name of an entry of the rename table. *)
Definition isApplicationName (T : list (string * string)) (k : string) : bool :=
  existsb (fun entry => String.eqb (snd entry) k) T.

(** What stands under the name [k] once the entries [T] of the rename
    table have been applied to a document [d] in application form: under a
    stored name, the value of its application name; an application name is
    gone; any other name keeps its value. *)
Definition storedValue (T : list (string * string)) (d : Document) (k : string)
    : option Value :=
  match Map_get T k with
  | Some p => getProp p d
  | None => if isApplicationName T k then None else getProp k d
  end.

Definition renamed (T : list (string * string)) (d document : Document) : Prop :=
  forall k, getProp k document = storedValue T d k.

(** The loop of [mapDocumentToData], from any accumulator. *)
Definition toDataLoop (documentObject : Document) (ks : list string) (data : Document)
    : Document :=
  fold_left
    (fun data fieldName =>
       setProp (applicationName fieldName) (readProp documentObject fieldName) data)
    ks data.

End Notions.

(** ** [mapDataToDocument] over an object store

    The method copies its argument twice and then writes to the second
    copy.  Here objects live in a store and are passed by reference, so
    that what the method writes, and where, is explicit.  Property values
    are copied as they are (a nested object would be shared, and is never
    written to). *)

Section Store.
Context `{Mongodb}.
Variable this : MongoDataAccess.

Definition ref : Type := nat.
Definition store : Type := list Document.

Definition deref (s : store) (r : ref) : Document := nth r s [].

(** The object literal [{}]. *)
Definition alloc (s : store) : store * ref := ((s ++ [[]])%list, length s).

Fixpoint modify (s : store) (r : ref) (f : Document -> Document) : store :=
  match s, r with
  | [], _ => []
  | o :: s', O => f o :: s'
  | o :: s', S r' => o :: modify s' r' f
  end.

(** [Object.assign({}, source)]. *)
Definition assign_new (s : store) (source : ref) : store * ref :=
  let (s1, target) := alloc s in
  (modify s1 target (fun t => assign t (deref s1 source)), target).

Definition renameEntry_at (dataObject document : ref) (s : store)
    (entry : string * string) : store :=
  let (field, prop) := entry in
  if hasOwnProperty (deref s dataObject) prop then
    let value := readProp (deref s dataObject) prop in
    let s1 := modify s document (setProp field value) in
    modify s1 document (deleteProp prop)
  else s.

(** [mapDataToDocument] on references; [None] is [null]. *)
Definition mapDataToDocument_at (s : store) (data : option ref) : store * ref :=
  match data with
  | None => alloc s
  | Some data =>
      let (s1, dataObject) := assign_new s data in
      let (s2, document) := assign_new s1 dataObject in
      let s3 := fold_left (renameEntry_at dataObject document) (fieldsPropsMap this) s2 in
      let _id := readProp (deref s3 document) "_id" in
      if isNullish _id
      then (modify s3 document (deleteProp "_id"), document)
      else (s3, document)
  end.
End Store.

(** ** [parseStringsIDs] and [insert] over the object store

    [parseStringsIDs] assigns to the object it is given and returns that
    object.  An exception leaves the object as the assignments made so far
    have left it, so the store is part of every outcome. *)

Section StoreCoercion.
Context `{Mongodb}.
Variable this : MongoDataAccess.

(** The body of the loop over [idFields] on the object [document]: the
    store after the assignment, if any. *)
Definition parseSelector_at (key : string) (v : Value) (document : ref) (s : store)
    (selector : fieldSelector) : result store :=
  match selector with
  | RegExp matches =>
      if matches key then
        match v with
        | VArr items =>
            (items' <- array_map parseValue items ;;
             Ok (modify s document (setProp key (VArr items'))))%result
        | _ => (v' <- parseValue v ;; Ok (modify s document (setProp key v')))%result
        end
      else Ok s
  | Exact name =>
      if String.eqb key name then
        (v' <- parseValue v ;; Ok (modify s document (setProp key v')))%result
      else Ok s
  end.

(** The loop over [idFields]: the store reached, and the exception that
    ended the loop, if one did. *)
Fixpoint parseSelectors_at (key : string) (v : Value) (selectors : list fieldSelector)
    (document : ref) (s : store) : store * option error :=
  match selectors with
  | [] => (s, None)
  | selector :: rest =>
      match parseSelector_at key v document s selector with
      | Ok s' => parseSelectors_at key v rest document s'
      | Throw e => (s, Some e)
      end
  end.

Fixpoint parseKeys_at (ks : list string) (document : ref) (s : store)
    : store * option error :=
  match ks with
  | [] => (s, None)
  | key :: rest =>
      let v := readProp (deref s document) key in
      match parseSelectors_at key v (idFields this) document s with
      | (s', None) => parseKeys_at rest document s'
      | (s', Some e) => (s', Some e)
      end
  end.

(** [parseStringsIDs] on a reference: [return document] hands back the
    reference received. *)
Definition parseStringsIDs_at (s : store) (document : ref) : store * result ref :=
  let (s', thrown) := parseKeys_at (keys (deref s document)) document s in
  (s', match thrown with None => Ok document | Some e => Throw e end).

(** [insert] on a reference, up to the answer of [insertOne]: the store
    when the method is done with its own objects, and the calls and the
    outcome as in [insert]. *)
Definition insert_at (driver : Driver) (s : store) (data : option ref)
    : store * Async string :=
  let (s1, mappedData) := mapDataToDocument_at this s data in
  let (s2, parsed) := parseStringsIDs_at s1 mappedData in
  (s2,
   match parsed with
   | Throw e => reject e
   | Ok parsedData =>
       (insertedId <- await (InsertOne (deref s2 parsedData))
                            (insertOne driver (deref s2 parsedData)) ;;
        resolve (templateString insertedId))%async
   end).
End StoreCoercion.

(** [value instanceof Array]. *)
Definition isArray `{Mongodb} (v : Value) : bool :=
  match v with
  | VArr _ => true
  | _ => false
  end.

(** ** A concrete identifier class and the scenario of the specification *)

Definition isHexDigit (c : ascii) : bool :=
  let n := nat_of_ascii c in
  ((48 <=? n) && (n <=? 57) || (97 <=? n) && (n <=? 102))%nat.

Definition isIdentifierString (s : string) : bool :=
  (String.length s =? 24)%nat && forallb isHexDigit (list_ascii_of_string s).

Inductive HexId : Type := hexId (canonical : string).

(** Modelled from the spec: the class [ObjectId] of the mongodb package is
    not part of the sources.  "Identifier Value: a value that is either a
    string (application form) or a store-native identifier object (stored
    form); coercion is a pure bijection for well-formed identifier strings,
    and fails (store-driver error) for malformed ones."  A native
    identifier is given by its canonical string, 24 lower-case hexadecimal
    digits; any other value is refused. *)
#[export] Instance hexMongodb : Mongodb := {|
  ObjectId := HexId;
  FindOptions := list (string * Z);
  ObjectId_new := fun v =>
    match v with
    | VStr s => if isIdentifierString s then Some (hexId s) else None
    | _ => None
    end;
  ObjectId_toString := fun o => let (s) := o in s
|}.

Module Scenario.
(** Rename table [{ "_id": "id", "usr_name": "username" }], identifier
    fields [["_id"]]. *)
Definition options : DataAccessOptions :=
  {| opt_fieldsProps := Some [("_id", "id"); ("usr_name", "username")];
     opt_idFields := Some [Exact "_id"] |}.

Definition access : MongoDataAccess := constructor "users" (Some options).

Definition X : HexId := hexId "507f1f77bcf86cd799439011".

Definition stored : Document := [("_id", VOid X); ("usr_name", VStr "ann")].

(** A store holding the one record [stored] in one collection. *)
Definition driver : Driver :=
  {| countDocuments := fun _ => Ok 1%Z;
     deleteMany := fun _ => Ok 1%Z;
     listCollections := fun name => Ok [name];
     collection_drop := Ok true;
     insertOne := fun _ => Ok (VOid X);
     find := fun _ _ => Ok [stored];
     findOne := fun _ _ => Ok (Some stored);
     updateMany := fun _ _ => Ok 1%Z |}.
End Scenario.

(** * Properties *)

Unset Implicit Arguments.

(** Closed goals on string literals: membership and [NoDup]. *)
Ltac not_among :=
  simpl; let Hin := fresh "Hin" in
  intros Hin; repeat (destruct Hin as [Hin|Hin]; [discriminate Hin|]); exact Hin.

Ltac distinct_strings :=
  repeat (constructor; [not_among|]); constructor.

(** ** Objects *)

Section ObjectFacts.
Context `{Mongodb}.
Implicit Types (d t : Document) (k : string) (v : Value).

Lemma assignable_cons k k0 v0 d :
  assignable ((k0, v0) :: d) k = String.eqb k k0 || assignable d k.
Proof.
  unfold assignable, hasOwnProperty. simpl.
  destruct (String.eqb k k0), (negb (String.eqb k "__proto__")), (getProp k d); reflexivity.
Qed.

Lemma assignable_true k d :
  assignable d k = true <-> k <> "__proto__" \/ In k (keys d).
Proof.
  induction d as [|[k0 v0] d IH].
  - unfold assignable, hasOwnProperty. simpl. rewrite orb_false_r.
    destruct (String.eqb_spec k "__proto__"); simpl; intuition congruence.
  - rewrite assignable_cons, orb_true_iff, IH. simpl.
    destruct (String.eqb_spec k k0); intuition congruence.
Qed.

Lemma getProp_setProp k k' v d :
  getProp k (setProp k' v d) =
  if String.eqb k k' && assignable d k' then Some v else getProp k d.
Proof.
  induction d as [|[k0 v0] d IH].
  - unfold assignable, hasOwnProperty. simpl. rewrite orb_false_r.
    destruct (String.eqb k' "__proto__"); simpl.
    + now rewrite andb_false_r.
    + rewrite andb_true_r. now destruct (String.eqb k k').
  - rewrite assignable_cons. simpl.
    destruct (String.eqb_spec k' k0) as [->|Hne]; simpl.
    + rewrite andb_true_r. destruct (String.eqb_spec k k0); reflexivity.
    + destruct (String.eqb_spec k k0) as [->|Hne'].
      * destruct (String.eqb_spec k0 k'); [congruence | reflexivity].
      * exact IH.
Qed.

Lemma getProp_setProp_same k v d :
  assignable d k = true -> getProp k (setProp k v d) = Some v.
Proof. intros Ha. now rewrite getProp_setProp, String.eqb_refl, Ha. Qed.

Lemma getProp_setProp_other k k' v d :
  k <> k' -> getProp k (setProp k' v d) = getProp k d.
Proof.
  intros Hne. rewrite getProp_setProp.
  destruct (String.eqb_spec k k'); [contradiction | reflexivity].
Qed.

Lemma getProp_deleteProp k k' d :
  getProp k (deleteProp k' d) = if String.eqb k k' then None else getProp k d.
Proof.
  induction d as [|[k0 v0] d IH]; simpl.
  - destruct (String.eqb k k'); reflexivity.
  - destruct (String.eqb_spec k' k0) as [->|Hne]; simpl.
    + rewrite IH. destruct (String.eqb_spec k k0); reflexivity.
    + destruct (String.eqb_spec k k0) as [->|Hne'].
      * destruct (String.eqb_spec k0 k'); [congruence | reflexivity].
      * exact IH.
Qed.

Lemma getProp_None k d : getProp k d = None <-> ~ In k (keys d).
Proof.
  induction d as [|[k0 v0] d IH]; simpl.
  - tauto.
  - destruct (String.eqb_spec k k0) as [->|Hne].
    + split; [discriminate | tauto].
    + rewrite IH. split; intros Hn; [intros [E|E]; [congruence | tauto] | tauto].
Qed.

Lemma getProp_Some_In k v d : getProp k d = Some v -> In (k, v) d.
Proof.
  induction d as [|[k0 v0] d IH]; simpl; [discriminate|].
  destruct (String.eqb_spec k k0) as [->|Hne].
  - intros [= ->]. now left.
  - intros E. right. now apply IH.
Qed.

Lemma getProp_In_keys k d : In k (keys d) -> exists v, getProp k d = Some v.
Proof.
  intros Hin. destruct (getProp k d) as [v|] eqn:E; [now exists v|].
  apply getProp_None in E. contradiction.
Qed.

Lemma getProp_Some_keys d k v : getProp k d = Some v -> In k (keys d).
Proof.
  intros Hget. destruct (in_dec string_dec k (keys d)) as [Hi|Hn]; [exact Hi|].
  apply getProp_None in Hn. congruence.
Qed.

Lemma In_getProp_wf k v d : wellFormed d -> In (k, v) d -> getProp k d = Some v.
Proof.
  unfold wellFormed. induction d as [|[k0 v0] d IH]; simpl; [tauto|].
  intros Hnd [E|Hin].
  - injection E as -> ->. now rewrite String.eqb_refl.
  - inversion Hnd as [|? ? Hnot Hnd']; subst.
    destruct (String.eqb_spec k k0) as [->|Hne].
    + exfalso. apply Hnot. change (In (fst (k0, v)) (map fst d)). now apply in_map.
    + now apply IH.
Qed.

Lemma keys_setProp_In k v d : In k (keys d) -> keys (setProp k v d) = keys d.
Proof.
  induction d as [|[k0 v0] d IH]; simpl; [tauto|].
  intros Hin. destruct (String.eqb_spec k k0) as [->|Hne]; simpl; [reflexivity|].
  f_equal. apply IH. destruct Hin; [congruence | assumption].
Qed.

Lemma setProp_fresh k v d :
  ~ In k (keys d) -> k <> "__proto__" -> setProp k v d = (d ++ [(k, v)])%list.
Proof.
  intros Hn Hplain. induction d as [|[k0 v0] d IH]; simpl.
  - destruct (String.eqb_spec k "__proto__"); [contradiction | reflexivity].
  - simpl in Hn. destruct (String.eqb_spec k k0) as [->|Hne]; [tauto|].
    f_equal. apply IH. tauto.
Qed.

Lemma In_keys_setProp k k' v d :
  In k (keys (setProp k' v d)) <-> (k = k' /\ assignable d k' = true) \/ In k (keys d).
Proof.
  induction d as [|[k0 v0] d IH].
  - unfold assignable, hasOwnProperty. simpl. rewrite orb_false_r.
    destruct (String.eqb k' "__proto__"); simpl; intuition congruence.
  - rewrite assignable_cons. simpl.
    destruct (String.eqb_spec k' k0) as [->|Hne]; simpl.
    + intuition congruence.
    + rewrite IH. intuition congruence.
Qed.

Lemma In_keys_setProp_inv k k' v d :
  In k (keys (setProp k' v d)) -> k = k' \/ In k (keys d).
Proof. rewrite In_keys_setProp. tauto. Qed.

Lemma In_keys_deleteProp k k' d :
  In k (keys (deleteProp k' d)) <-> k <> k' /\ In k (keys d).
Proof.
  induction d as [|[k0 v0] d IH]; simpl.
  - tauto.
  - destruct (String.eqb_spec k' k0) as [->|Hne]; simpl.
    + rewrite IH. intuition congruence.
    + rewrite IH. intuition congruence.
Qed.

Lemma wellFormed_setProp k v d : wellFormed d -> wellFormed (setProp k v d).
Proof.
  unfold wellFormed. induction d as [|[k0 v0] d IH]; simpl; intros Hnd.
  - destruct (String.eqb k "__proto__"); [constructor|].
    constructor; [simpl; tauto | constructor].
  - inversion Hnd as [|? ? Hnot Hnd']; subst.
    destruct (String.eqb_spec k k0) as [->|Hne]; simpl.
    + now constructor.
    + constructor; [|now apply IH].
      change (~ In k0 (keys (setProp k v d))). intros Hin.
      apply In_keys_setProp_inv in Hin as [E|E]; [congruence | contradiction].
Qed.

Lemma wellFormed_deleteProp k d : wellFormed d -> wellFormed (deleteProp k d).
Proof.
  unfold wellFormed. induction d as [|[k0 v0] d IH]; simpl; intros Hnd.
  - constructor.
  - inversion Hnd as [|? ? Hnot Hnd']; subst.
    destruct (String.eqb_spec k k0) as [->|Hne]; simpl.
    + now apply IH.
    + constructor; [|now apply IH].
      change (~ In k0 (keys (deleteProp k d))). rewrite In_keys_deleteProp. tauto.
Qed.

Lemma In_setProp k k' v v' d :
  In (k, v) (setProp k' v' d) -> (k = k' /\ v = v') \/ In (k, v) d.
Proof.
  induction d as [|[k0 v0] d IH]; simpl.
  - destruct (String.eqb k' "__proto__"); [intros []|].
    intros [E|[]]. injection E as <- <-. now left.
  - destruct (String.eqb_spec k' k0) as [->|Hne]; simpl.
    + intros [E|Hin]; [injection E as <- <-; now left | right; now right].
    + intros [E|Hin]; [right; now left|].
      destruct (IH Hin) as [?|?]; [now left | right; now right].
Qed.

Lemma In_deleteProp k k' v d : In (k, v) (deleteProp k' d) -> In (k, v) d.
Proof.
  induction d as [|[k0 v0] d IH]; simpl; [tauto|].
  destruct (String.eqb_spec k' k0) as [->|Hne]; simpl.
  - intros Hin. right. now apply IH.
  - intros [E|Hin]; [now left | right; now apply IH].
Qed.

(** Copying a well-formed object that has no own property [__proto__]
    gives an equal object. *)
Lemma assign_app t d :
  NoDup (keys t ++ keys d) -> ~ In "__proto__" (keys d) -> assign t d = (t ++ d)%list.
Proof.
  unfold assign. revert t. induction d as [|[k0 v0] d IH]; simpl; intros t Hnd Hplain.
  - now rewrite app_nil_r.
  - rewrite setProp_fresh.
    + rewrite IH.
      * now rewrite <- app_assoc.
      * unfold keys in *. rewrite map_app. simpl. rewrite <- app_assoc. exact Hnd.
      * tauto.
    + apply NoDup_remove_2 in Hnd. intros Hin. apply Hnd. apply in_or_app. now left.
    + intros ->. tauto.
Qed.

Lemma assign_nil d : wellFormed d -> ~ In "__proto__" (keys d) -> assign [] d = d.
Proof. intros Hwf Hplain. now apply (assign_app []). Qed.

Lemma wellFormed_assign t d : wellFormed t -> wellFormed (assign t d).
Proof.
  unfold assign. revert t. induction d as [|[k0 v0] d IH]; simpl; intros t Hwf.
  - exact Hwf.
  - apply IH. now apply wellFormed_setProp.
Qed.

Lemma In_assign k v t d : In (k, v) (assign t d) -> In (k, v) t \/ In (k, v) d.
Proof.
  unfold assign. revert t. induction d as [|[k0 v0] d IH]; simpl; intros t Hin.
  - now left.
  - destruct (IH _ Hin) as [Ht|Hd]; [|right; now right].
    destruct (In_setProp _ _ _ _ _ Ht) as [[-> ->]|Ht']; [right; now left | now left].
Qed.

Lemma In_keys_assign k t d :
  In k (keys (assign t d)) <->
  In k (keys t) \/ (In k (keys d) /\ k <> "__proto__").
Proof.
  unfold assign. revert t. induction d as [|[k0 v0] d IH]; simpl; intros t.
  - tauto.
  - rewrite IH, In_keys_setProp, assignable_true. intuition congruence.
Qed.

(** A copy made from [{}] has no own property [__proto__]. *)
Lemma assign_nil_plain d : ~ In "__proto__" (keys (assign [] d)).
Proof. rewrite In_keys_assign. simpl. tauto. Qed.

Lemma setProp_plain k v d :
  ~ In "__proto__" (keys d) -> ~ In "__proto__" (keys (setProp k v d)).
Proof.
  intros Hplain Hin. apply In_keys_setProp in Hin as [[<- Ha]|Hin]; [|contradiction].
  apply assignable_true in Ha as [Hne|Hin]; [now apply Hne | contradiction].
Qed.

Lemma deleteProp_plain k d :
  ~ In "__proto__" (keys d) -> ~ In "__proto__" (keys (deleteProp k d)).
Proof. intros Hplain Hin. apply In_keys_deleteProp in Hin. tauto. Qed.
End ObjectFacts.

(** ** The rename table *)

Lemma In_keys_Map_set k k' v m :
  In k (map fst (Map_set k' v m)) <-> k = k' \/ In k (map fst m).
Proof.
  induction m as [|[k0 v0] m IH]; simpl.
  - intuition congruence.
  - destruct (String.eqb_spec k' k0) as [->|Hne]; simpl.
    + intuition congruence.
    + rewrite IH. intuition congruence.
Qed.

Lemma Map_set_NoDup k v m : NoDup (map fst m) -> NoDup (map fst (Map_set k v m)).
Proof.
  induction m as [|[k0 v0] m IH]; simpl; intros Hnd.
  - constructor; [tauto | constructor].
  - inversion Hnd as [|? ? Hnot Hnd']; subst.
    destruct (String.eqb_spec k k0) as [->|Hne]; simpl.
    + now constructor.
    + constructor; [|now apply IH].
      rewrite In_keys_Map_set. intros [E|E]; [congruence | contradiction].
Qed.

(** A [Map] holds a key once: the table built by the constructor has no
    stored name twice. *)
Lemma constructor_fieldsPropsMap_NoDup name options :
  NoDup (map fst (fieldsPropsMap (constructor name options))).
Proof.
  unfold constructor. simpl. unfold Map_new.
  generalize (match match options with
                    | Some o => opt_fieldsProps o
                    | None => None
                    end with
              | Some fp => fp
              | None => []
              end).
  intros entries.
  assert (Hgen : forall m, NoDup (map fst m) ->
                           NoDup (map fst (fold_left
                                             (fun m kv => Map_set (fst kv) (snd kv) m)
                                             entries m))).
  { induction entries as [|[k v] entries IH]; simpl; intros m Hm; [exact Hm|].
    apply IH. now apply Map_set_NoDup. }
  apply Hgen. constructor.
Qed.

(** ** The identifier coercion *)

Section CoercionFacts.
Context `{Mongodb}.
Variable this : MongoDataAccess.
Implicit Types (d document : Document) (k key : string) (v : Value).

Lemma parseValue_native o : parseValue (VOid o) = Ok (VStr (ObjectId_toString o)).
Proof. reflexivity. Qed.

(** An exact-name selector hands the whole value to [parseValue], an
    array included. *)
Lemma parseSelector_Exact_array key items document :
  parseSelector key (VArr items) document (Exact key) =
  match ObjectId_new (VArr items) with
  | Some o => Ok (setProp key (VOid o) document)
  | None => Throw BSONError
  end.
Proof.
  simpl. rewrite String.eqb_refl. unfold parseValue.
  destruct (ObjectId_new (VArr items)); reflexivity.
Qed.

Lemma array_map_length {A B} (f : A -> result B) items items' :
  array_map f items = Ok items' -> length items' = length items.
Proof.
  revert items'. induction items as [|x items IH]; simpl; intros items'.
  - intros [= <-]. reflexivity.
  - destruct (f x) as [y|e]; simpl; [|discriminate].
    destruct (array_map f items) as [ys|e]; simpl; [|discriminate].
    intros [= <-]. simpl. f_equal. now apply IH.
Qed.

Lemma array_map_Forall2 {A B} (f : A -> result B) items items' :
  array_map f items = Ok items' -> Forall2 (fun x y => f x = Ok y) items items'.
Proof.
  revert items'. induction items as [|x items IH]; simpl; intros items'.
  - intros [= <-]. constructor.
  - destruct (f x) as [y|e] eqn:Ef; simpl; [|discriminate].
    destruct (array_map f items) as [ys|e]; simpl; [|discriminate].
    intros [= <-]. constructor; [assumption | now apply IH].
Qed.

(** A pattern selector coerces an array element by element. *)
Lemma parseSelector_RegExp_array matches key items document document' :
  matches key = true ->
  parseSelector key (VArr items) document (RegExp matches) = Ok document' ->
  exists items',
    document' = setProp key (VArr items') document /\
    length items' = length items /\
    Forall2 (fun x y => parseValue x = Ok y) items items'.
Proof.
  intros Hm. simpl. rewrite Hm.
  destruct (array_map parseValue items) as [items'|e] eqn:E; simpl; [|discriminate].
  intros [= <-]. exists items'. split; [reflexivity|]. split.
  - now apply array_map_length in E.
  - now apply array_map_Forall2.
Qed.

Lemma parseSelector_unselected key v document selector :
  selects key selector = false ->
  parseSelector key v document selector = Ok document.
Proof. destruct selector; simpl; intros ->; reflexivity. Qed.

(** Whatever a selector does, it assigns to [document[key]] only. *)
Lemma parseSelector_assigns key v document selector document' :
  parseSelector key v document selector = Ok document' ->
  document' = document \/ exists v', document' = setProp key v' document.
Proof.
  destruct selector as [name|matches]; simpl.
  - destruct (String.eqb key name); [|intros [= <-]; now left].
    destruct (parseValue v) as [v'|e]; simpl; [|discriminate].
    intros [= <-]. right. now exists v'.
  - destruct (matches key); [|intros [= <-]; now left].
    destruct v as [| |b|n|s|o|items|fields]; cbv iota;
      try (destruct (parseValue _) as [v'|e]; simpl; [|discriminate];
           intros [= <-]; right; now exists v').
    destruct (array_map parseValue items) as [items'|e]; simpl; [|discriminate].
    intros [= <-]. right. now exists (VArr items').
Qed.

Lemma parseSelectors_keys key v selectors document document' :
  In key (keys document) ->
  parseSelectors key v selectors document = Ok document' ->
  keys document' = keys document /\
  (forall k, k <> key -> getProp k document' = getProp k document).
Proof.
  revert document. induction selectors as [|s selectors IH]; simpl; intros document Hin.
  - intros [= <-]. now split.
  - destruct (parseSelector key v document s) as [d1|e] eqn:E1; simpl; [|discriminate].
    intros E2. destruct (parseSelector_assigns _ _ _ _ _ E1) as [->|[v' ->]].
    + now apply IH.
    + assert (Hin' : In key (keys (setProp key v' document)))
        by (now rewrite keys_setProp_In).
      destruct (IH _ Hin' E2) as [Hk Hg].
      split.
      * rewrite Hk. now apply keys_setProp_In.
      * intros k Hne. rewrite (Hg k Hne). now apply getProp_setProp_other.
Qed.

Lemma parseSelectors_unselected key v selectors document :
  existsb (selects key) selectors = false ->
  parseSelectors key v selectors document = Ok document.
Proof.
  induction selectors as [|s selectors IH]; simpl; [reflexivity|].
  intros Hex. apply orb_false_iff in Hex as [Hs Hrest].
  rewrite (parseSelector_unselected _ _ _ _ Hs). simpl. now apply IH.
Qed.

Lemma parseKeys_keys ks document document' :
  (forall k, In k ks -> In k (keys document)) ->
  parseKeys this ks document = Ok document' ->
  keys document' = keys document /\
  (forall k, ~ In k ks -> getProp k document' = getProp k document).
Proof.
  revert document. induction ks as [|key ks IH]; simpl; intros document Hsub.
  - intros [= <-]. now split.
  - destruct (parseSelectors key (readProp document key) (idFields this) document)
      as [d1|e] eqn:E1; simpl; [|discriminate].
    intros E2.
    destruct (parseSelectors_keys _ _ _ _ _ (Hsub key (or_introl eq_refl)) E1) as [Hk1 Hg1].
    assert (Hsub' : forall k, In k ks -> In k (keys d1)).
    { intros k Hin. rewrite Hk1. apply Hsub. now right. }
    destruct (IH _ Hsub' E2) as [Hk2 Hg2]. split.
    + congruence.
    + intros k Hn. rewrite Hg2 by tauto. apply Hg1. intros ->. apply Hn. now left.
Qed.

(** [parseStringsIDs] neither adds nor removes a property. *)
Lemma parseStringsIDs_keys document document' :
  parseStringsIDs this document = Ok document' -> keys document' = keys document.
Proof.
  intros E. now apply (parseKeys_keys (keys document) document document' (fun k Hin => Hin)).
Qed.
End CoercionFacts.

(** ** The renaming towards stored names *)

Section RenameFacts.
Context `{Mongodb}.
Variable this : MongoDataAccess.
Implicit Types (d data document : Document) (k : string) (v : Value).

Lemma readProp_getProp d k v : getProp k d = Some v -> readProp d k = v.
Proof. unfold readProp. now intros ->. Qed.

Lemma hasOwnProperty_true d k :
  hasOwnProperty d k = true -> exists v, getProp k d = Some v /\ readProp d k = v.
Proof.
  unfold hasOwnProperty, readProp. destruct (getProp k d) as [v|]; [|discriminate].
  intros _. now exists v.
Qed.

Lemma hasOwnProperty_false d k : hasOwnProperty d k = false -> getProp k d = None.
Proof. unfold hasOwnProperty. destruct (getProp k d); [discriminate | reflexivity]. Qed.

Lemma renameEntries_provenance data dataObject entries document :
  (forall k v, In (k, v) dataObject -> In (k, v) data) ->
  incl entries (fieldsPropsMap this) ->
  (forall k v, In (k, v) document -> fromData this data k v) ->
  forall k v, In (k, v) (fold_left (renameEntry dataObject) entries document) ->
              fromData this data k v.
Proof.
  intros HdO. revert document.
  induction entries as [|[field prop] entries IH]; simpl; intros document Hincl Hdoc.
  - exact Hdoc.
  - apply IH.
    + intros e He. apply Hincl. now right.
    + intros k v. destruct (hasOwnProperty dataObject prop) eqn:Hhas; [|apply Hdoc].
      intros Hin. apply In_deleteProp, In_setProp in Hin as [[-> ->]|Hin]; [|now apply Hdoc].
      apply hasOwnProperty_true in Hhas as (v0 & Hget & ->).
      exists prop. split.
      * apply HdO. now apply getProp_Some_In.
      * right. apply Hincl. now left.
Qed.

Lemma renameFields_provenance data k v :
  In (k, v) (renameFields this data) -> fromData this data k v.
Proof.
  unfold renameFields.
  assert (HdO : forall k v, In (k, v) (assign [] data) -> In (k, v) data).
  { intros k0 v0 Hin. apply In_assign in Hin as [[]|Hin]. exact Hin. }
  apply renameEntries_provenance; [exact HdO | |].
  - apply incl_refl.
  - intros k0 v0 Hin. apply In_assign in Hin as [[]|Hin].
    exists k0. split; [now apply HdO | now left].
Qed.

Lemma mapDataToDocument_provenance data k v :
  In (k, v) (mapDataToDocument this (Some data)) -> fromData this data k v.
Proof.
  simpl. destruct (isNullish _); intros Hin.
  - apply In_deleteProp in Hin. now apply renameFields_provenance.
  - now apply renameFields_provenance.
Qed.

(** The stored document never carries a null primary identifier. *)
Lemma mapDataToDocument_primary (input : option Document) :
  isNullish (primaryIdentifier this input) = true ->
  getProp "_id" (mapDataToDocument this input) = None.
Proof.
  destruct input as [d|]; simpl; [|reflexivity].
  intros ->. now rewrite getProp_deleteProp.
Qed.

Lemma mapDataToDocument_nullish d :
  isNullish (primaryIdentifier this (Some d)) = true ->
  mapDataToDocument this (Some d) = deleteProp "_id" (renameFields this d).
Proof. simpl. now intros ->. Qed.

Lemma renameEntries_empty entries :
  fold_left (renameEntry ([] : Document)) entries ([] : Document) = [].
Proof. induction entries as [|[field prop] entries IH]; simpl; [reflexivity | exact IH]. Qed.

(** An absent filter, [filter ?? {}], maps to the empty filter. *)
Lemma mapDataToDocument_absent : mapDataToDocument this (Some (orEmpty None)) = [].
Proof.
  unfold mapDataToDocument, renameFields. simpl. now rewrite renameEntries_empty.
Qed.
End RenameFacts.

(** ** The facade *)

Section FacadeFacts.
Context `{Mongodb}.
Variable this : MongoDataAccess.
Variable driver : Driver.

Lemma count_verbatim filter :
  count driver filter = ([CountDocuments filter], countDocuments driver filter).
Proof. reflexivity. Qed.

Lemma delete_verbatim filter :
  calls (delete driver filter) = [DeleteMany filter] /\
  outcome (delete driver filter) = deleteMany driver filter.
Proof. unfold delete, await. simpl. destruct (deleteMany driver filter); now split. Qed.

Lemma select_calls filter options :
  calls (select this driver filter options) =
  [Find (mapDataToDocument this (Some (orEmpty filter))) options].
Proof.
  unfold select, await, lift. simpl. destruct (find driver _ options); reflexivity.
Qed.

Lemma selectOne_calls filter options :
  calls (selectOne this driver filter options) =
  [FindOne (mapDataToDocument this (Some (orEmpty filter))) options].
Proof.
  unfold selectOne, await, lift. simpl.
  destruct (findOne driver _ options) as [[document|]|]; reflexivity.
Qed.

Lemma update_calls filter values :
  calls (update this driver filter values) =
  [UpdateMany (mapDataToDocument this (Some (orEmpty filter))) values].
Proof.
  unfold update, await. simpl. destruct (updateMany driver _ values); reflexivity.
Qed.

Lemma select_outcome filter options documents :
  find driver (mapDataToDocument this (Some (orEmpty filter))) options = Ok documents ->
  outcome (select this driver filter options) = array_map (parseDocument this) documents.
Proof. unfold select, await, lift. simpl. now intros ->. Qed.

Lemma selectOne_outcome filter options document :
  findOne driver (mapDataToDocument this (Some (orEmpty filter))) options
    = Ok (Some document) ->
  outcome (selectOne this driver filter options) =
  rbind (parseDocument this document) (fun r => Ok (Some r)).
Proof. unfold selectOne, await, lift. simpl. now intros ->. Qed.

Lemma insert_calls data document :
  parseStringsIDs this (mapDataToDocument this data) = Ok document ->
  calls (insert this driver data) = [InsertOne document].
Proof.
  unfold insert, lift, await. simpl. intros ->. simpl.
  destruct (insertOne driver document); reflexivity.
Qed.

Lemma insert_throws data e :
  parseStringsIDs this (mapDataToDocument this data) = Throw e ->
  insert this driver data = ([], Throw e).
Proof. unfold insert, lift. simpl. now intros ->. Qed.
End FacadeFacts.

(** ** The records handed back by [select] and [selectOne] *)

Section RecordFacts.
Context `{Mongodb}.
Variable this : MongoDataAccess.
Implicit Types (d document record : Document) (k key : string) (v : Value).

Lemma mapDocumentToData_loop document :
  mapDocumentToData this document =
  toDataLoop this (assign [] document) (keys (assign [] document)) [].
Proof. reflexivity. Qed.

Lemma toDataLoop_wellFormed documentObject ks data :
  wellFormed data -> wellFormed (toDataLoop this documentObject ks data).
Proof.
  revert data. induction ks as [|k ks IH]; simpl; intros data Hwf; [exact Hwf|].
  apply IH. now apply wellFormed_setProp.
Qed.

Lemma mapDocumentToData_wellFormed document :
  wellFormed (mapDocumentToData this document).
Proof. rewrite mapDocumentToData_loop. apply toDataLoop_wellFormed. constructor. Qed.

Lemma toDataLoop_keys documentObject ks data k' :
  In k' (keys (toDataLoop this documentObject ks data)) <->
  In k' (keys data) \/
  exists k, In k ks /\ k' = applicationName this k /\ k' <> "__proto__".
Proof.
  revert data. induction ks as [|k0 ks IH]; simpl; intros data.
  - split; [now left | intros [Hin|(k & [] & _)]; exact Hin].
  - rewrite IH, In_keys_setProp, assignable_true. split.
    + intros [[[-> [Hne|Hin]]|Hin]|(k & Hin & Hk)].
      * right. exists k0. split; [now left | now split].
      * now left.
      * now left.
      * right. exists k. split; [now right | exact Hk].
    + intros [Hin|(k & [->|Hin] & -> & Hne)].
      * left. now right.
      * left. left. split; [reflexivity | now left].
      * right. exists k. now split.
Qed.

(** The names handed back are the application names of the names
    received; the name [__proto__] is neither copied nor assigned. *)
Lemma mapDocumentToData_keys document k' :
  In k' (keys (mapDocumentToData this document)) <->
  exists k, In k (keys document) /\ k <> "__proto__" /\
            k' = applicationName this k /\ k' <> "__proto__".
Proof.
  rewrite mapDocumentToData_loop, toDataLoop_keys. simpl. split.
  - intros [[]|(k & Hin & Hk)]. exists k.
    apply In_keys_assign in Hin as [[]|[Hin Hne]]. now split; [|split].
  - intros (k & Hin & Hne & Hk). right. exists k. split; [|exact Hk].
    apply In_keys_assign. right. now split.
Qed.

Lemma mapDocumentToData_plain document :
  ~ In "__proto__" (keys (mapDocumentToData this document)).
Proof. rewrite mapDocumentToData_keys. intros (k & _ & _ & _ & Hne). now apply Hne. Qed.

Lemma toDataLoop_provenance documentObject ks data k' v :
  (forall k, In k ks -> In k (keys documentObject)) ->
  getProp k' (toDataLoop this documentObject ks data) = Some v ->
  getProp k' data = Some v \/
  exists k, In (k, v) documentObject /\ applicationName this k = k'.
Proof.
  revert data. induction ks as [|k0 ks IH]; simpl; intros data Hsub Hget; [now left|].
  destruct (IH _ (fun k Hin => Hsub k (or_intror Hin)) Hget) as [Hdata|Hex]; [|now right].
  rewrite getProp_setProp in Hdata.
  destruct (String.eqb k' (applicationName this k0) &&
            assignable data (applicationName this k0)) eqn:Hset; [|now left].
  apply andb_true_iff in Hset as [Heq _]. apply String.eqb_eq in Heq as ->.
  injection Hdata as <-. right. exists k0. split; [|reflexivity].
  destruct (getProp_In_keys _ _ (Hsub k0 (or_introl eq_refl))) as [v0 Hv0].
  rewrite (readProp_getProp _ _ _ Hv0). now apply getProp_Some_In.
Qed.

(** Every value handed back by [mapDocumentToData] is the value of a field
    received, whose application name it stands under. *)
Lemma mapDocumentToData_provenance document k' v :
  getProp k' (mapDocumentToData this document) = Some v ->
  exists k, In (k, v) document /\ applicationName this k = k'.
Proof.
  rewrite mapDocumentToData_loop. intros Hget.
  apply toDataLoop_provenance in Hget as [Hnil|(k & Hin & Happ)].
  - discriminate.
  - exists k. split; [|exact Happ]. apply In_assign in Hin as [[]|Hin]. exact Hin.
  - tauto.
Qed.

(** What [parseKeys] leaves under a key it visits: the outcome of the
    selector loop run on the value the key had at the start. *)
Lemma parseKeys_visited ks document document' key :
  NoDup ks ->
  (forall k, In k ks -> In k (keys document)) ->
  parseKeys this ks document = Ok document' ->
  In key ks ->
  exists d1 d2,
    parseSelectors key (readProp document key) (idFields this) d1 = Ok d2 /\
    getProp key d1 = getProp key document /\
    getProp key d2 = getProp key document'.
Proof.
  revert document. induction ks as [|key0 ks IH]; simpl; intros document Hnd Hsub; [tauto|].
  inversion Hnd as [|? ? Hnot Hnd']; subst.
  destruct (parseSelectors key0 (readProp document key0) (idFields this) document)
    as [d1|e] eqn:E1; simpl; [|discriminate].
  intros E2 Hin.
  destruct (parseSelectors_keys _ _ _ _ _ (Hsub key0 (or_introl eq_refl)) E1) as [Hk1 Hg1].
  assert (Hsub' : forall k, In k ks -> In k (keys d1)).
  { intros k Hk. rewrite Hk1. apply Hsub. now right. }
  destruct Hin as [->|Hin].
  - exists document, d1. split; [exact E1|]. split; [reflexivity|].
    symmetry. now apply (parseKeys_keys this ks d1 document' Hsub' E2).
  - assert (Hne : key <> key0) by (intros ->; contradiction).
    destruct (IH d1 Hnd' Hsub' E2 Hin) as (d1' & d2' & Hsel & Hg1' & Hg2').
    exists d1', d2'. unfold readProp in *. rewrite (Hg1 key Hne) in Hsel, Hg1'.
    now split.
Qed.

End RecordFacts.

(** ** Renaming there and back *)

Section RoundTrip.
Context `{Mongodb}.
Variable this : MongoDataAccess.
Implicit Types (d document : Document) (k f p : string) (v : Value)
         (T : list (string * string)).

Lemma Map_get_app T1 T2 k :
  Map_get (T1 ++ T2) k =
  match Map_get T1 k with Some p => Some p | None => Map_get T2 k end.
Proof.
  induction T1 as [|[f p] T1 IH]; simpl; [reflexivity|].
  destruct (String.eqb k f); [reflexivity | exact IH].
Qed.

Lemma Map_get_None T k : Map_get T k = None <-> ~ In k (map fst T).
Proof.
  induction T as [|[f p] T IH]; simpl; [tauto|].
  destruct (String.eqb_spec k f) as [->|Hne].
  - split; [discriminate | tauto].
  - rewrite IH. intuition congruence.
Qed.

Lemma Map_get_In T f p : NoDup (map fst T) -> In (f, p) T -> Map_get T f = Some p.
Proof.
  induction T as [|[f0 p0] T IH]; simpl; [tauto|].
  intros Hnd Hin. inversion Hnd as [|? ? Hnot Hnd']; subst.
  destruct Hin as [[= -> ->]|Hin].
  - now rewrite String.eqb_refl.
  - destruct (String.eqb_spec f f0) as [->|Hne]; [|now apply IH].
    exfalso. apply Hnot. change (In (fst (f0, p)) (map fst T)). now apply in_map.
Qed.

Lemma isApplicationName_true T k :
  isApplicationName T k = true -> exists f, In (f, k) T.
Proof.
  unfold isApplicationName. intros Hex.
  apply existsb_exists in Hex as ([f p] & Hin & Heq). simpl in Heq.
  apply String.eqb_eq in Heq as ->. now exists f.
Qed.

Lemma renameEntry_renamed T1 f p d document :
  ~ In f (map fst T1) ->
  f <> "__proto__" ->
  (forall k, In k (keys d) -> ~ In k (map fst (T1 ++ [(f, p)]))) ->
  renamed T1 d document ->
  renamed (T1 ++ [(f, p)]) d (renameEntry d document (f, p)).
Proof.
  unfold renamed, storedValue. intros Hfresh Hplain Happ Hinv k.
  assert (Hf : getProp f d = None).
  { apply getProp_None. intros Hin. apply (Happ f Hin).
    rewrite map_app. apply in_or_app. right. now left. }
  assert (Hstored : forall k0 v0, getProp k0 d = Some v0 ->
                                  Map_get T1 k0 = None /\ k0 <> f).
  { intros k0 v0 Hget.
    assert (Hin : In k0 (keys d)).
    { destruct (in_dec string_dec k0 (keys d)) as [Hi|Hn]; [exact Hi|].
      apply getProp_None in Hn. congruence. }
    split.
    - apply Map_get_None. intros Hin1. apply (Happ k0 Hin).
      rewrite map_app. apply in_or_app. now left.
    - intros ->. congruence. }
  apply Map_get_None in Hfresh.
  rewrite Map_get_app. unfold isApplicationName. rewrite existsb_app. simpl.
  fold (isApplicationName T1 k). rewrite orb_false_r.
  unfold renameEntry.
  destruct (hasOwnProperty d p) eqn:Hhas.
  - apply hasOwnProperty_true in Hhas as (v0 & Hget & Hread). rewrite Hread.
    destruct (Hstored p v0 Hget) as [Hp1 Hpf].
    rewrite getProp_deleteProp, getProp_setProp,
      (proj2 (assignable_true f document) (or_introl Hplain)), andb_true_r.
    destruct (String.eqb_spec k p) as [->|Hkp].
    + rewrite Hp1. destruct (String.eqb_spec p f); [contradiction|].
      rewrite String.eqb_refl, orb_true_r. reflexivity.
    + destruct (String.eqb_spec k f) as [->|Hkf].
      * rewrite Hfresh. now rewrite Hget.
      * rewrite (Hinv k). destruct (Map_get T1 k); [reflexivity|].
        destruct (String.eqb_spec p k); [congruence|]. now rewrite orb_false_r.
  - apply hasOwnProperty_false in Hhas. rewrite (Hinv k).
    destruct (Map_get T1 k) as [q|] eqn:Hq; [reflexivity|].
    destruct (String.eqb_spec k f) as [->|Hkf].
    + rewrite Hhas, Hf. now destruct (isApplicationName T1 f).
    + destruct (String.eqb_spec p k) as [->|Hpk].
      * rewrite orb_true_r, Hhas. now destruct (isApplicationName T1 k).
      * now rewrite orb_false_r.
Qed.

Lemma renameEntries_renamed T2 : forall T1 d document,
  NoDup (map fst (T1 ++ T2)) ->
  ~ In "__proto__" (map fst (T1 ++ T2)) ->
  (forall k, In k (keys d) -> ~ In k (map fst (T1 ++ T2))) ->
  renamed T1 d document ->
  renamed (T1 ++ T2) d (fold_left (renameEntry d) T2 document).
Proof.
  induction T2 as [|[f p] T2 IH]; simpl; intros T1 d document Hnd Hplain Happ Hinv.
  - now rewrite app_nil_r.
  - replace (T1 ++ (f, p) :: T2)%list with ((T1 ++ [(f, p)]) ++ T2)%list in *
      by (now rewrite <- app_assoc).
    apply IH; [exact Hnd | exact Hplain | exact Happ |].
    apply renameEntry_renamed; [| | |exact Hinv].
    + rewrite !map_app in Hnd. simpl in Hnd. rewrite <- app_assoc in Hnd. simpl in Hnd.
      apply NoDup_remove_2 in Hnd. intros Hin. apply Hnd. apply in_or_app. now left.
    + intros ->. apply Hplain. rewrite !map_app. simpl.
      apply in_or_app. left. apply in_or_app. right. now left.
    + intros k Hin Hin'. apply (Happ k Hin). rewrite map_app. apply in_or_app. now left.
Qed.

Lemma renameFields_renamed d :
  NoDup (map fst (fieldsPropsMap this)) ->
  ~ In "__proto__" (map fst (fieldsPropsMap this)) ->
  wellFormed d ->
  ~ In "__proto__" (keys d) ->
  (forall k, In k (keys d) -> ~ In k (map fst (fieldsPropsMap this))) ->
  renamed (fieldsPropsMap this) d (renameFields this d).
Proof.
  intros Hnd Hplain Hwf Hpd Happ. unfold renameFields. rewrite !(assign_nil d Hwf Hpd).
  apply (renameEntries_renamed (fieldsPropsMap this) [] d d Hnd Hplain Happ).
  intros k. reflexivity.
Qed.

Lemma renameEntries_plain dataObject entries document :
  ~ In "__proto__" (keys document) ->
  ~ In "__proto__" (keys (fold_left (renameEntry dataObject) entries document)).
Proof.
  revert document. induction entries as [|[f p] entries IH]; simpl; intros document Hpl;
    [exact Hpl|].
  apply IH. destruct (hasOwnProperty dataObject p); [|exact Hpl].
  now apply deleteProp_plain, setProp_plain.
Qed.

(** The document made by [mapDataToDocument] has no own property
    [__proto__], whatever it is made from. *)
Lemma mapDataToDocument_plain (data : option Document) :
  ~ In "__proto__" (keys (mapDataToDocument this data)).
Proof.
  destruct data as [d|]; simpl; [|tauto].
  assert (Hpl : ~ In "__proto__" (keys (renameFields this d))).
  { unfold renameFields. apply renameEntries_plain, assign_nil_plain. }
  destruct (isNullish _); [now apply deleteProp_plain | exact Hpl].
Qed.

Lemma renameEntries_wellFormed dataObject entries document :
  wellFormed document -> wellFormed (fold_left (renameEntry dataObject) entries document).
Proof.
  revert document. induction entries as [|[f p] entries IH]; simpl; intros document Hwf;
    [exact Hwf|].
  apply IH. destruct (hasOwnProperty dataObject p); [|exact Hwf].
  now apply wellFormed_deleteProp, wellFormed_setProp.
Qed.

Lemma mapDataToDocument_wellFormed (data : option Document) :
  wellFormed (mapDataToDocument this data).
Proof.
  destruct data as [d|]; simpl; [|constructor].
  assert (Hwf : wellFormed (renameFields this d)).
  { unfold renameFields. apply renameEntries_wellFormed, wellFormed_assign. constructor. }
  destruct (isNullish _); [now apply wellFormed_deleteProp | exact Hwf].
Qed.

(** The filter or value sent for a document in application form, field
    by field. *)
Lemma mapDataToDocument_application_form d k :
  NoDup (map fst (fieldsPropsMap this)) ->
  ~ In "__proto__" (map fst (fieldsPropsMap this)) ->
  wellFormed d ->
  ~ In "__proto__" (keys d) ->
  (forall k, In k (keys d) -> ~ In k (map fst (fieldsPropsMap this))) ->
  getProp k (mapDataToDocument this (Some d)) =
  match storedValue (fieldsPropsMap this) d k with
  | Some v => if String.eqb k "_id" && isNullish v then None else Some v
  | None => None
  end.
Proof.
  intros Hnd Hplain Hwf Hpd Happ.
  pose proof (renameFields_renamed d Hnd Hplain Hwf Hpd Happ) as Hren.
  unfold renamed in Hren.
  simpl. unfold readProp. rewrite (Hren "_id").
  destruct (String.eqb_spec k "_id") as [->|Hne]; simpl.
  - destruct (storedValue (fieldsPropsMap this) d "_id") as [v|] eqn:Hv.
    + destruct (isNullish v).
      * now rewrite getProp_deleteProp.
      * now rewrite (Hren "_id").
    + simpl. now rewrite getProp_deleteProp.
  - assert (Hk : getProp k (deleteProp "_id" (renameFields this d)) =
                 getProp k (renameFields this d)).
    { rewrite getProp_deleteProp. destruct (String.eqb_spec k "_id"); [contradiction|].
      reflexivity. }
    destruct (isNullish _); [rewrite Hk|]; rewrite (Hren k);
      now destruct (storedValue (fieldsPropsMap this) d k).
Qed.

Lemma mapDataToDocument_sameProperties d :
  getProp "_id" (renameFields this d) = None \/
  isNullish (primaryIdentifier this (Some d)) = false ->
  sameProperties (mapDataToDocument this (Some d)) (renameFields this d).
Proof.
  intros Hid k. simpl. simpl in Hid.
  destruct (isNullish (readProp (renameFields this d) "_id")) eqn:Hnull; [|reflexivity].
  destruct Hid as [Habsent|Hnot]; [|discriminate].
  rewrite getProp_deleteProp. destruct (String.eqb_spec k "_id") as [->|]; congruence.
Qed.
End RoundTrip.

(** ** [mapDataToDocument] writes to its own copy only *)

Section StoreFacts.
Context `{Mongodb}.
Variable this : MongoDataAccess.
Implicit Types (s : store) (r : ref) (f : Document -> Document).

Lemma modify_length s r f : length (modify s r f) = length s.
Proof.
  revert r. induction s as [|o s IH]; intros [|r]; simpl; try reflexivity.
  now rewrite IH.
Qed.

Lemma deref_modify_other s r r' f : r' <> r -> deref (modify s r f) r' = deref s r'.
Proof.
  unfold deref. revert r r'. induction s as [|o s IH]; intros [|r] [|r'] Hne; simpl;
    try reflexivity; try contradiction.
  apply IH. congruence.
Qed.

Lemma deref_modify_same s r f : r < length s -> deref (modify s r f) r = f (deref s r).
Proof.
  unfold deref. revert r. induction s as [|o s IH]; intros [|r] Hlt; simpl in *;
    try lia; [reflexivity|].
  apply IH. lia.
Qed.

(** A new object is empty, and reading any other reference is not
    affected by the allocation. *)
Lemma deref_alloc s r : deref (fst (alloc s)) r = deref s r.
Proof.
  unfold deref, alloc. simpl. revert r. induction s as [|o s IH]; intros [|r]; simpl;
    try reflexivity.
  - now destruct r.
  - apply IH.
Qed.

Lemma assign_new_spec s source :
  let s' := fst (assign_new s source) in
  let target := snd (assign_new s source) in
  target = length s /\
  length s' = S (length s) /\
  (forall r, r <> target -> deref s' r = deref s r) /\
  deref s' target = assign [] (deref s source).
Proof.
  unfold assign_new. simpl.
  split; [reflexivity|]. split; [|split].
  - rewrite modify_length, length_app. simpl. lia.
  - intros r Hne. rewrite deref_modify_other by exact Hne. apply (deref_alloc s r).
  - rewrite deref_modify_same by (rewrite length_app; simpl; lia).
    pose proof (deref_alloc s) as Halloc. unfold alloc in Halloc. simpl in Halloc.
    rewrite (Halloc source). f_equal.
    rewrite (Halloc (length s)). unfold deref. apply nth_overflow. lia.
Qed.

Lemma renameEntries_at_spec dataObject document entries : forall s,
  dataObject <> document ->
  document < length s ->
  let s' := fold_left (renameEntry_at dataObject document) entries s in
  length s' = length s /\
  (forall r, r <> document -> deref s' r = deref s r) /\
  deref s' document =
    fold_left (renameEntry (deref s dataObject)) entries (deref s document).
Proof.
  induction entries as [|[field prop] entries IH]; intros s Hne Hlt; cbn [fold_left].
  - repeat split.
  - set (s1 := renameEntry_at dataObject document s (field, prop)).
    assert (Hstep : length s1 = length s /\
                    (forall r, r <> document -> deref s1 r = deref s r) /\
                    deref s1 document =
                      renameEntry (deref s dataObject) (deref s document) (field, prop)).
    { subst s1. unfold renameEntry_at, renameEntry.
      destruct (hasOwnProperty (deref s dataObject) prop).
      - split; [now rewrite !modify_length|]. split.
        + intros r Hr. now rewrite !deref_modify_other by exact Hr.
        + rewrite deref_modify_same by (now rewrite modify_length).
          now rewrite deref_modify_same by exact Hlt.
      - repeat split. }
    destruct Hstep as (Hlen1 & Hother1 & Hdoc1).
    destruct (IH s1 Hne (eq_ind_r (fun n => document < n) Hlt Hlen1))
      as (Hlen & Hother & Hdoc).
    cbv zeta.
    split; [congruence|]. split.
    + intros r Hr. rewrite (Hother r Hr). now apply Hother1.
    + rewrite Hdoc, Hdoc1, (Hother1 dataObject Hne). reflexivity.
Qed.
End StoreFacts.

(** * The facade and the mapper against their specification *)

(** ** The filter of [select] and [selectOne] *)

(** C1, as the code has it.  For every filter, [select] and [selectOne]
    call the driver's [find] and [findOne] once, with
    [mapDataToDocument (filter ?? {})].  Field names are rewritten to stored
    names: for a filter in application form, where neither a field of the
    filter nor a stored name of the table is called [__proto__], the
    filter sent holds under a stored name what the caller gave under its
    application name, nothing under an application name that has an
    entry, and anything else as given (a null [_id] apart).  No value is
    coerced: every value of the filter sent is a value the caller gave, so
    an identifier given as a string reaches the driver as that string. *)
Theorem select_filter_renamed_not_coerced `{Mongodb}
    (this : MongoDataAccess) (driver : Driver)
    (filter : option Document) (options : option FindOptions) :
  let sent := mapDataToDocument this (Some (orEmpty filter)) in
  calls (select this driver filter options) = [Find sent options] /\
  calls (selectOne this driver filter options) = [FindOne sent options] /\
  (forall k v,
     In (k, v) sent ->
     exists k', In (k', v) (orEmpty filter) /\
                (k' = k \/ In (k, k') (fieldsPropsMap this))) /\
  (NoDup (map fst (fieldsPropsMap this)) ->
   ~ In "__proto__" (map fst (fieldsPropsMap this)) ->
   wellFormed (orEmpty filter) ->
   ~ In "__proto__" (keys (orEmpty filter)) ->
   (forall k, In k (keys (orEmpty filter)) -> ~ In k (map fst (fieldsPropsMap this))) ->
   forall k,
     getProp k sent =
     match storedValue (fieldsPropsMap this) (orEmpty filter) k with
     | Some v => if String.eqb k "_id" && isNullish v then None else Some v
     | None => None
     end).
Proof.
  intros sent. split; [apply select_calls|]. split; [apply selectOne_calls|]. split.
  - intros k v Hin. now apply mapDataToDocument_provenance.
  - intros Hnd Hplain Hwf Hpf Happ k. now apply mapDataToDocument_application_form.
Qed.

(** C1 as stated fails in the scenario of the specification: for the
    filter [{ id: stringOf(X) }] the driver receives [{ _id: stringOf(X) }],
    the identifier still a string, and not [{ _id: X }]. *)
Lemma select_filter_coerced_counterexample :
  calls (select Scenario.access Scenario.driver
           (Some [("id", VStr (ObjectId_toString Scenario.X))]) None) =
    [Find [("_id", VStr "507f1f77bcf86cd799439011")] None] /\
  calls (selectOne Scenario.access Scenario.driver
           (Some [("id", VStr (ObjectId_toString Scenario.X))]) None) =
    [FindOne [("_id", VStr "507f1f77bcf86cd799439011")] None] /\
  [("_id", VStr "507f1f77bcf86cd799439011")] <>
    ([("_id", VOid Scenario.X)] : Document).
Proof.
  split; [reflexivity|]. split; [reflexivity|]. discriminate.
Qed.

(** ** The records of [select] and [selectOne] *)

(** C2 at a failing input, the scenario of the specification.  [select]
    and [selectOne] test the identifier selectors on the application names
    that [mapDocumentToData] has just written, so the selector ["_id"] does
    not match the field [id]: the caller receives [{ id: X, username: "ann" }]
    with the native identifier, not its string.  On the sibling path
    [insert] tests the same selectors on stored names and does coerce
    [_id].  The renaming half of the claim holds at this input: no stored
    name is handed back. *)
Theorem select_identifier_left_native :
  outcome (selectOne Scenario.access Scenario.driver
             (Some [("id", VStr (ObjectId_toString Scenario.X))]) None) =
    Ok (Some [("id", VOid Scenario.X); ("username", VStr "ann")]) /\
  outcome (select Scenario.access Scenario.driver
             (Some [("id", VStr (ObjectId_toString Scenario.X))]) None) =
    Ok [[("id", VOid Scenario.X); ("username", VStr "ann")]] /\
  mapDocumentToData Scenario.access Scenario.stored =
    [("id", VOid Scenario.X); ("username", VStr "ann")] /\
  selected Scenario.access "id" = false /\
  selected Scenario.access "_id" = true /\
  calls (insert Scenario.access Scenario.driver
           (Some [("id", VStr (ObjectId_toString Scenario.X)); ("username", VStr "ann")])) =
    [InsertOne [("_id", VOid Scenario.X); ("usr_name", VStr "ann")]] /\
  ([("id", VOid Scenario.X); ("username", VStr "ann")] : Document) <>
    [("id", VStr (ObjectId_toString Scenario.X)); ("username", VStr "ann")].
Proof.
  split; [reflexivity|]. split; [reflexivity|]. split; [reflexivity|].
  split; [reflexivity|]. split; [reflexivity|]. split; [reflexivity|].
  discriminate.
Qed.

(** ** [count] and [delete] *)

(** C3 at a failing input.  Under the rename table of the scenario,
    [count] and [delete] hand the filter [{ username: "ann" }] to the
    driver as it is, although [mapDataToDocument] rewrites it to
    [{ usr_name: "ann" }], which is what [update] sends for the same
    filter. *)
Theorem count_delete_filter_not_mapped :
  let filter : Document := [("username", VStr "ann")] in
  calls (count Scenario.driver filter) = [CountDocuments [("username", VStr "ann")]] /\
  calls (delete Scenario.driver filter) = [DeleteMany [("username", VStr "ann")]] /\
  mapDataToDocument Scenario.access (Some filter) = [("usr_name", VStr "ann")] /\
  calls (update Scenario.access Scenario.driver (Some filter) []) =
    [UpdateMany [("usr_name", VStr "ann")] []] /\
  outcome (count Scenario.driver filter) = countDocuments Scenario.driver filter /\
  outcome (delete Scenario.driver filter) = deleteMany Scenario.driver filter.
Proof. repeat split. Qed.

(** ** Arrays under an identifier selector *)

(** C4 at a failing input.  With an exact-name selector for the field, an
    array value is handed whole to [new ObjectId(...)]: the result is an
    exception or a single identifier, never an array of coerced elements.
    The sibling branch for a pattern selector maps [parseValue] over the
    elements of the same document. *)
Theorem exact_selector_array_not_elementwise `{Mongodb}
    (name key : string) (items : list Value) :
  parseStringsIDs
    {| collectionName := name; fieldsPropsMap := []; idFields := [Exact key] |}
    [(key, VArr items)] =
    match ObjectId_new (VArr items) with
    | Some o => Ok [(key, VOid o)]
    | None => Throw BSONError
    end /\
  forall matches items',
    matches key = true ->
    array_map parseValue items = Ok items' ->
    parseStringsIDs
      {| collectionName := name; fieldsPropsMap := []; idFields := [RegExp matches] |}
      [(key, VArr items)] = Ok [(key, VArr items')].
Proof.
  assert (Hread : readProp [(key, VArr items)] key = VArr items).
  { unfold readProp. simpl. now rewrite (String.eqb_refl key). }
  split.
  - unfold parseStringsIDs. simpl. rewrite Hread, !(String.eqb_refl key). simpl.
    destruct (ObjectId_new (VArr items)); reflexivity.
  - intros matches items' Hm Hmap. unfold parseStringsIDs. simpl.
    rewrite Hread, Hm, Hmap, (String.eqb_refl key). reflexivity.
Qed.

(** The failing input on the concrete identifier class: the array is
    refused, where the pattern [/^friends$/] coerces its two elements. *)
Example exact_selector_array_scenario :
  let document : Document :=
    [("friends", VArr [VStr "507f1f77bcf86cd799439011"; VOid Scenario.X])] in
  parseStringsIDs
    {| collectionName := "users"; fieldsPropsMap := []; idFields := [Exact "friends"] |}
    document = Throw BSONError /\
  parseStringsIDs
    {| collectionName := "users"; fieldsPropsMap := [];
       idFields := [RegExp (String.eqb "friends")] |}
    document =
    Ok [("friends", VArr [VOid Scenario.X; VStr "507f1f77bcf86cd799439011"])].
Proof. split; reflexivity. Qed.

(** ** Renaming there and back *)

(** C5, as the code has it.  For a document [d] in application form (none
    of its field names is a stored name of the rename table) whose primary
    identifier after renaming is absent or not null, and where neither a
    field of [d] nor a stored name of the table is called [__proto__]
    (the copies of lines 104 and 105 and the assignment of line 109 would
    drop it), [mapDocumentToData (mapDataToDocument d)] has the properties
    of [d].  The rename table is a [Map] and [d] an object: neither holds
    a key twice. *)
Theorem roundtrip_application_form `{Mongodb} (this : MongoDataAccess) (d : Document) :
  NoDup (map fst (fieldsPropsMap this)) ->
  ~ In "__proto__" (map fst (fieldsPropsMap this)) ->
  wellFormed d ->
  ~ In "__proto__" (keys d) ->
  (forall k, In k (keys d) -> ~ In k (map fst (fieldsPropsMap this))) ->
  getProp "_id" (renameFields this d) = None \/
    isNullish (primaryIdentifier this (Some d)) = false ->
  sameProperties (mapDocumentToData this (mapDataToDocument this (Some d))) d.
Proof.
  intros Hnd Hplain Hwf Hpd Happ Hid.
  pose proof (renameFields_renamed this d Hnd Hplain Hwf Hpd Happ) as Hren.
  unfold renamed, storedValue in Hren.
  pose proof (mapDataToDocument_sameProperties this d Hid) as Hsame.
  pose proof (mapDataToDocument_wellFormed this (Some d)) as HwfS.
  set (stored := mapDataToDocument this (Some d)) in *.
  assert (Hcons : forall k v, getProp k stored = Some v ->
                              getProp (applicationName this k) d = Some v).
  { intros k v Hget. rewrite (Hsame k), (Hren k) in Hget. unfold applicationName.
    destruct (Map_get (fieldsPropsMap this) k); [exact Hget|].
    destruct (isApplicationName (fieldsPropsMap this) k); [discriminate | exact Hget]. }
  assert (Hsurj : forall k' v, getProp k' d = Some v ->
                               exists k, In k (keys stored) /\ applicationName this k = k').
  { intros k' v Hget.
    assert (Hk' : Map_get (fieldsPropsMap this) k' = None).
    { apply Map_get_None. apply Happ.
      destruct (in_dec string_dec k' (keys d)) as [Hi|Hn]; [exact Hi|].
      apply getProp_None in Hn. congruence. }
    destruct (isApplicationName (fieldsPropsMap this) k') eqn:Hisapp.
    - destruct (isApplicationName_true _ _ Hisapp) as [f Hin].
      pose proof (Map_get_In _ _ _ Hnd Hin) as Hf.
      exists f. split; [|unfold applicationName; now rewrite Hf].
      destruct (in_dec string_dec f (keys stored)) as [Hi|Hn]; [exact Hi|].
      apply getProp_None in Hn. rewrite (Hsame f), (Hren f), Hf in Hn. congruence.
    - exists k'. split; [|unfold applicationName; now rewrite Hk'].
      destruct (in_dec string_dec k' (keys stored)) as [Hi|Hn]; [exact Hi|].
      apply getProp_None in Hn. rewrite (Hsame k'), (Hren k'), Hk', Hisapp in Hn.
      congruence. }
  intros k'.
  destruct (getProp k' (mapDocumentToData this stored)) as [v'|] eqn:Hback.
  - destruct (mapDocumentToData_provenance this _ _ _ Hback) as (k & Hin & Hname).
    symmetry. rewrite <- Hname. apply Hcons. now apply In_getProp_wf.
  - destruct (getProp k' d) as [v|] eqn:Hd; [|reflexivity].
    destruct (Hsurj k' v Hd) as (k & Hin & Hname).
    apply getProp_None in Hback. exfalso. apply Hback.
    apply mapDocumentToData_keys. exists k. split; [exact Hin|]. split.
    + intros ->. now apply (mapDataToDocument_plain this (Some d)).
    + split; [now symmetry|]. intros ->. apply Hpd.
      destruct (in_dec string_dec "__proto__" (keys d)) as [Hi|Hn]; [exact Hi|].
      apply getProp_None in Hn. congruence.
Qed.

Lemma roundtrip_application_form_witness :
  let d : Document := [("id", VStr "507f1f77bcf86cd799439011"); ("username", VStr "ann")] in
  NoDup (map fst (fieldsPropsMap Scenario.access)) /\
  ~ In "__proto__" (map fst (fieldsPropsMap Scenario.access)) /\
  wellFormed d /\
  ~ In "__proto__" (keys d) /\
  (forall k, In k (keys d) -> ~ In k (map fst (fieldsPropsMap Scenario.access))) /\
  isNullish (primaryIdentifier Scenario.access (Some d)) = false /\
  mapDataToDocument Scenario.access (Some d) =
    [("_id", VStr "507f1f77bcf86cd799439011"); ("usr_name", VStr "ann")] /\
  sameProperties (mapDocumentToData Scenario.access (mapDataToDocument Scenario.access (Some d))) d.
Proof.
  intros d.
  assert (Htable : NoDup (map fst (fieldsPropsMap Scenario.access)))
    by apply constructor_fieldsPropsMap_NoDup.
  assert (Hwf : wellFormed d) by (unfold wellFormed; simpl; distinct_strings).
  assert (Happ : forall k, In k (keys d) ->
                           ~ In k (map fst (fieldsPropsMap Scenario.access)))
    by (simpl; intros k [<-|[<-|[]]]; not_among).
  assert (Hid : isNullish (primaryIdentifier Scenario.access (Some d)) = false)
    by reflexivity.
  assert (Hplain : ~ In "__proto__" (map fst (fieldsPropsMap Scenario.access)))
    by not_among.
  assert (Hpd : ~ In "__proto__" (keys d)) by not_among.
  split; [exact Htable|]. split; [exact Hplain|]. split; [exact Hwf|].
  split; [exact Hpd|]. split; [exact Happ|].
  split; [exact Hid|]. split; [reflexivity|].
  exact (@roundtrip_application_form _ Scenario.access d Htable Hplain Hwf Hpd Happ
           (or_intror Hid)).
Defined.

(** C5 as stated fails: a document that uses the stored name [usr_name]
    comes back under the application name [username].  No field of the
    document is selected as an identifier, and its primary identifier is
    present and not null; the same happens to the document without the
    [_id] field.  And with no rename entry at all, an own field
    [__proto__] (as [JSON.parse] makes one) does not come back: the copy
    of line 104 does not take it. *)
Lemma roundtrip_stored_name_counterexample :
  let this := constructor "users"
                (Some {| opt_fieldsProps := Some [("usr_name", "username")];
                         opt_idFields := None |}) in
  let d : Document := [("_id", VNum 7); ("usr_name", VStr "ann")] in
  let d' : Document := [("usr_name", VStr "ann")] in
  let plain := constructor "users" None in
  let p : Document := [("_id", VNum 7); ("__proto__", VNum 5); ("a", VNum 2)] in
  forallb (fun k => negb (selected this k)) (keys d) = true /\
  primaryIdentifier this (Some d) = VNum 7 /\
  mapDocumentToData this (mapDataToDocument this (Some d)) =
    [("_id", VNum 7); ("username", VStr "ann")] /\
  ~ sameProperties (mapDocumentToData this (mapDataToDocument this (Some d))) d /\
  mapDocumentToData this (mapDataToDocument this (Some d')) = [("username", VStr "ann")] /\
  ~ sameProperties (mapDocumentToData this (mapDataToDocument this (Some d'))) d' /\
  mapDocumentToData plain (mapDataToDocument plain (Some p)) =
    [("_id", VNum 7); ("a", VNum 2)] /\
  ~ sameProperties (mapDocumentToData plain (mapDataToDocument plain (Some p))) p.
Proof.
  split; [reflexivity|]. split; [reflexivity|]. split; [reflexivity|].
  split; [|split; [reflexivity|split; [|split; [reflexivity|]]]].
  - intros Hsame. specialize (Hsame "usr_name"). discriminate.
  - intros Hsame. specialize (Hsame "usr_name"). discriminate.
  - intros Hsame. specialize (Hsame "__proto__"). discriminate.
Qed.

(** ** [insert] *)

(** C6.  When the primary identifier of the value, the field named [_id]
    after renaming, is null or absent, no document handed to [insertOne]
    has an [_id] field; and a document is handed over whenever the
    identifier coercion succeeds. *)
Theorem insert_omits_null_primary_identifier `{Mongodb}
    (this : MongoDataAccess) (driver : Driver) (data : option Document) :
  isNullish (primaryIdentifier this data) = true ->
  (forall document,
     In (InsertOne document) (calls (insert this driver data)) ->
     getProp "_id" document = None) /\
  (forall document,
     parseStringsIDs this (mapDataToDocument this data) = Ok document ->
     calls (insert this driver data) = [InsertOne document]).
Proof.
  intros Hnull. split; [|apply insert_calls].
  intros document Hin.
  destruct (parseStringsIDs this (mapDataToDocument this data)) as [parsed|e] eqn:E.
  - rewrite (insert_calls _ driver _ _ E) in Hin.
    destruct Hin as [[= <-]|[]].
    apply getProp_None. rewrite (parseStringsIDs_keys _ _ _ E).
    apply getProp_None. now apply mapDataToDocument_primary.
  - rewrite (insert_throws _ driver _ _ E) in Hin. destruct Hin.
Qed.

Lemma insert_omits_null_primary_identifier_witness :
  isNullish (primaryIdentifier Scenario.access (Some [("username", VStr "ann"); ("id", VNull)]))
    = true /\
  calls (insert Scenario.access Scenario.driver
           (Some [("username", VStr "ann"); ("id", VNull)])) =
    [InsertOne [("usr_name", VStr "ann")]] /\
  getProp "_id" ([("usr_name", VStr "ann")] : Document) = None.
Proof.
  pose proof (@insert_omits_null_primary_identifier _ Scenario.access Scenario.driver
                (Some [("username", VStr "ann"); ("id", VNull)]) eq_refl) as [Hno Hsent].
  split; [reflexivity|].
  pose proof (Hsent [("usr_name", VStr "ann")] eq_refl) as Hcalls.
  split; [exact Hcalls|].
  apply Hno. rewrite Hcalls. now left.
Defined.

(** ** A confirmed [drop] *)

(** C7.  A confirmed [drop] asks the driver for the collections named as
    configured.  More than one: it throws and [drop] is not called on the
    collection.  Exactly one: the collection is dropped and [true] is
    returned.  None: [true] is returned and nothing is dropped. *)
Theorem drop_confirmed `{Mongodb}
    (this : MongoDataAccess) (driver : Driver) (collections : list string) :
  listCollections driver (collectionName this) = Ok collections ->
  (1 < length collections ->
   drop this driver true =
     ([ListCollections (collectionName this)],
      Throw (Error ("More than 1 collection found with name: " ++ collectionName this)))) /\
  (length collections = 1 ->
   calls (drop this driver true) = [ListCollections (collectionName this); DropCollection] /\
   forall b, collection_drop driver = Ok b -> outcome (drop this driver true) = Ok true) /\
  (length collections = 0 ->
   drop this driver true = ([ListCollections (collectionName this)], Ok true)).
Proof.
  intros Hlist. unfold drop, await. simpl. rewrite Hlist.
  destruct collections as [|c1 [|c2 rest]]; simpl.
  - split; [lia|]. split; [discriminate | reflexivity].
  - split; [lia|]. split; [|discriminate].
    intros _. destruct (collection_drop driver) as [b|e]; simpl.
    + split; [reflexivity|]. reflexivity.
    + split; [reflexivity|]. discriminate.
  - split; [reflexivity|]. split; [discriminate | discriminate].
Qed.

Lemma drop_confirmed_witness :
  listCollections Scenario.driver (collectionName Scenario.access) = Ok ["users"] /\
  calls (drop Scenario.access Scenario.driver true) =
    [ListCollections "users"; DropCollection] /\
  outcome (drop Scenario.access Scenario.driver true) = Ok true.
Proof.
  pose proof (@drop_confirmed _ Scenario.access Scenario.driver ["users"] eq_refl)
    as (_ & Hone & _).
  split; [reflexivity|].
  destruct (Hone eq_refl) as [Hcalls Hout].
  split; [exact Hcalls | exact (Hout true eq_refl)].
Defined.

(** ** An unconfirmed [drop] *)

(** C8.  [drop(false)] returns [false] without any driver call, whatever
    the driver would answer; and it is the only operation with that
    guarantee: with a driver whose calls fail, [count], [delete], [insert],
    [select], [selectOne], [update] and a confirmed [drop] all fail, on
    every input. *)
Theorem drop_unconfirmed `{Mongodb} (this : MongoDataAccess) :
  (forall driver, drop this driver false = ([], Ok false)) /\
  (forall e,
     (forall filter, outcome (count (failing e) filter) = Throw e) /\
     (forall filter, outcome (delete (failing e) filter) = Throw e) /\
     (forall data, exists e', outcome (insert this (failing e) data) = Throw e') /\
     (forall filter options, outcome (select this (failing e) filter options) = Throw e) /\
     (forall filter options, outcome (selectOne this (failing e) filter options) = Throw e) /\
     (forall filter values, outcome (update this (failing e) filter values) = Throw e) /\
     outcome (drop this (failing e) true) = Throw e).
Proof.
  split; [reflexivity|]. intros e. repeat split.
  intros data. unfold insert, lift. simpl.
  destruct (parseStringsIDs this (mapDataToDocument this data)) as [parsed|e'];
    [exists e | exists e']; reflexivity.
Qed.

(** ** The argument of [mapDataToDocument] *)

(** C9.  [mapDataToDocument] leaves every object that exists when it is
    called as it was, its argument among them; the document it returns is
    an object that did not exist before, so it is not the argument; and
    that document holds what the function computes from the argument. *)
Theorem mapDataToDocument_never_mutates_input `{Mongodb}
    (this : MongoDataAccess) (s : store) (data : option ref) :
  let s' := fst (mapDataToDocument_at this s data) in
  let document := snd (mapDataToDocument_at this s data) in
  (forall r, r < length s -> deref s' r = deref s r) /\
  (forall r k, data = Some r -> r < length s ->
               getProp k (deref s' r) = getProp k (deref s r)) /\
  length s <= document < length s' /\
  (forall r, data = Some r -> r < length s -> document <> r) /\
  deref s' document = mapDataToDocument this (option_map (deref s) data).
Proof.
  assert (Hmain :
    let s' := fst (mapDataToDocument_at this s data) in
    let document := snd (mapDataToDocument_at this s data) in
    (forall r, r < length s -> deref s' r = deref s r) /\
    length s <= document < length s' /\
    deref s' document = mapDataToDocument this (option_map (deref s) data)).
  { destruct data as [input|].
    - unfold mapDataToDocument_at, mapDataToDocument. cbn [option_map].
      pose proof (assign_new_spec s input) as Hspec1. cbv zeta in Hspec1.
      destruct (assign_new s input) as [s1 dataObject]. cbn [fst snd] in Hspec1.
      destruct Hspec1 as (Ht1 & Hl1 & Ho1 & Hd1).
      pose proof (assign_new_spec s1 dataObject) as Hspec2. cbv zeta in Hspec2.
      destruct (assign_new s1 dataObject) as [s2 document]. cbn [fst snd] in Hspec2.
      destruct Hspec2 as (Ht2 & Hl2 & Ho2 & Hd2).
      assert (Hne : dataObject <> document) by lia.
      assert (Hlt : document < length s2) by lia.
      destruct (renameEntries_at_spec dataObject document (fieldsPropsMap this) s2 Hne Hlt)
        as (Hl3 & Ho3 & Hd3).
      cbv zeta.
      set (s3 := fold_left (renameEntry_at dataObject document) (fieldsPropsMap this) s2) in *.
      assert (Hrenamed : deref s3 document = renameFields this (deref s input)).
      { rewrite Hd3, Hd2, (Ho2 dataObject Hne), Hd1. reflexivity. }
      assert (Hframe : forall r, r < length s -> deref s3 r = deref s r).
      { intros r Hr. rewrite Ho3, Ho2, Ho1 by lia. reflexivity. }
      rewrite Hrenamed.
      destruct (isNullish (readProp (renameFields this (deref s input)) "_id"));
        cbn [fst snd].
      + split; [|split].
        * intros r Hr. rewrite deref_modify_other by lia. now apply Hframe.
        * rewrite modify_length. lia.
        * rewrite deref_modify_same by lia. now rewrite Hrenamed.
      + split; [exact Hframe|]. split; [lia | exact Hrenamed].
    - unfold mapDataToDocument_at, alloc. cbn [option_map mapDataToDocument fst snd].
      split; [|split].
      + intros r _. apply (deref_alloc s r).
      + rewrite length_app. simpl. lia.
      + unfold deref. rewrite nth_middle. reflexivity. }
  destruct Hmain as (Hframe & Hfresh & Hresult).
  split; [exact Hframe|]. split; [|split; [exact Hfresh|split; [|exact Hresult]]].
  - intros r k _ Hr. now rewrite Hframe.
  - intros r _ Hr. lia.
Qed.

(** The scenario on a store: the caller's object at reference 0 is left
    as it was, and the stored document is the new object at reference
    2. *)
Example mapDataToDocument_at_scenario :
  mapDataToDocument_at Scenario.access
    [[("username", VStr "ann"); ("id", VNull)]] (Some 0) =
  ([[("username", VStr "ann"); ("id", VNull)];
    [("username", VStr "ann"); ("id", VNull)];
    [("usr_name", VStr "ann")]], 2).
Proof. reflexivity. Qed.

(** ** A null primary identifier in a filter *)

(** C10.  When the primary identifier of a filter, its [_id] field after
    renaming, is present and null, [select], [selectOne] and [update] send
    the driver the renamed filter with that field removed: the filter
    received has no [_id] and keeps every other field, and when [_id] was
    its only field the driver receives the empty filter, the one an absent
    filter gives. *)
Theorem null_primary_identifier_dropped_from_filter `{Mongodb}
    (this : MongoDataAccess) (driver : Driver)
    (filter : Document) (options : option FindOptions) (values : Document) (v : Value) :
  getProp "_id" (renameFields this filter) = Some v ->
  isNullish v = true ->
  let sent := deleteProp "_id" (renameFields this filter) in
  calls (select this driver (Some filter) options) = [Find sent options] /\
  calls (selectOne this driver (Some filter) options) = [FindOne sent options] /\
  calls (update this driver (Some filter) values) = [UpdateMany sent values] /\
  getProp "_id" sent = None /\
  (forall k, k <> "_id" -> getProp k sent = getProp k (renameFields this filter)) /\
  (keys (renameFields this filter) = ["_id"] ->
   sent = [] /\
   select this driver (Some filter) options = select this driver None options).
Proof.
  intros Hget Hnull sent.
  assert (Hmap : mapDataToDocument this (Some filter) = sent).
  { apply mapDataToDocument_nullish. simpl. now rewrite (readProp_getProp _ _ _ Hget). }
  split; [rewrite select_calls; simpl orEmpty; now rewrite Hmap|].
  split; [rewrite selectOne_calls; simpl orEmpty; now rewrite Hmap|].
  split; [rewrite update_calls; simpl orEmpty; now rewrite Hmap|].
  split; [subst sent; now rewrite getProp_deleteProp|].
  split.
  - intros k Hne. subst sent. rewrite getProp_deleteProp.
    destruct (String.eqb_spec k "_id"); [contradiction | reflexivity].
  - intros Hkeys.
    assert (Hempty : sent = []).
    { subst sent. destruct (renameFields this filter) as [|[k0 v0] [|kv rest]];
        try discriminate. simpl in Hkeys. injection Hkeys as ->. reflexivity. }
    split; [exact Hempty|].
    unfold select. rewrite mapDataToDocument_absent.
    change (orEmpty (Some filter)) with filter. rewrite Hmap, Hempty. reflexivity.
Qed.

Lemma null_primary_identifier_dropped_from_filter_witness :
  getProp "_id" (renameFields Scenario.access [("id", VNull)]) = Some VNull /\
  isNullish (VNull : Value) = true /\
  calls (select Scenario.access Scenario.driver (Some [("id", VNull)]) None) =
    [Find [] None] /\
  calls (selectOne Scenario.access Scenario.driver (Some [("id", VNull)]) None) =
    [FindOne [] None] /\
  calls (update Scenario.access Scenario.driver (Some [("id", VNull)]) []) =
    [UpdateMany [] []].
Proof.
  pose proof (@null_primary_identifier_dropped_from_filter _ Scenario.access Scenario.driver
                [("id", VNull)] None [] VNull eq_refl eq_refl)
    as (Hselect & HselectOne & Hupdate & _).
  split; [reflexivity|]. split; [reflexivity|].
  split; [exact Hselect|]. split; [exact HselectOne | exact Hupdate].
Defined.

(** * Further properties of the mapper and the facade *)

(** ** The table built by the constructor *)

Lemma Map_set_fresh k v m : ~ In k (map fst m) -> Map_set k v m = (m ++ [(k, v)])%list.
Proof.
  induction m as [|[k0 v0] m IH]; simpl; [reflexivity|].
  intros Hn. destruct (String.eqb_spec k k0) as [->|Hne]; [tauto|].
  f_equal. apply IH. tauto.
Qed.

Lemma Map_new_entries entries : NoDup (map fst entries) -> Map_new entries = entries.
Proof.
  unfold Map_new.
  assert (Hgen : forall m, NoDup (map fst m ++ map fst entries) ->
                           fold_left (fun m kv => Map_set (fst kv) (snd kv) m) entries m =
                           (m ++ entries)%list).
  { induction entries as [|[k v] entries IH]; simpl; intros m Hnd.
    - now rewrite app_nil_r.
    - rewrite Map_set_fresh.
      + rewrite IH; [now rewrite <- app_assoc|].
        rewrite map_app. simpl. now rewrite <- app_assoc.
      + apply NoDup_remove_2 in Hnd. intros Hin. apply Hnd. apply in_or_app. now left. }
  intros Hnd. now apply (Hgen []).
Qed.

Lemma Map_get_Some_In m k v : Map_get m k = Some v -> In (k, v) m.
Proof.
  induction m as [|[k0 v0] m IH]; simpl; [discriminate|].
  destruct (String.eqb_spec k k0) as [->|Hne].
  - intros [= ->]. now left.
  - intros E. right. now apply IH.
Qed.

(** X1.  The constructor keeps the rename entries of [fieldsProps] as
    they are given (an object has no key twice), so a lookup in the table
    finds the application name of exactly the configured stored names;
    the selectors are those of [idFields], and absent options give an
    empty table and no selector. *)
Theorem constructor_table_lookup (name : string)
    (fieldsProps : list (string * string)) (ids : option (list fieldSelector)) :
  NoDup (map fst fieldsProps) ->
  let this := constructor name
                (Some {| opt_fieldsProps := Some fieldsProps; opt_idFields := ids |}) in
  fieldsPropsMap this = fieldsProps /\
  (forall f p, Map_get (fieldsPropsMap this) f = Some p <-> In (f, p) fieldsProps) /\
  idFields this = match ids with Some l => l | None => [] end /\
  fieldsPropsMap (constructor name None) = [] /\
  idFields (constructor name None) = [].
Proof.
  intros Hnd this.
  assert (Htable : fieldsPropsMap this = fieldsProps) by (now apply Map_new_entries).
  split; [exact Htable|]. split; [|repeat split].
  intros f p. rewrite Htable. split.
  - apply Map_get_Some_In.
  - now apply Map_get_In.
Qed.

Lemma constructor_table_lookup_witness :
  NoDup (map fst [("_id", "id"); ("usr_name", "username")]) /\
  fieldsPropsMap Scenario.access = [("_id", "id"); ("usr_name", "username")] /\
  Map_get (fieldsPropsMap Scenario.access) "usr_name" = Some "username".
Proof.
  assert (Hnd : NoDup (map fst [("_id", "id"); ("usr_name", "username")]))
    by (simpl; distinct_strings).
  destruct (constructor_table_lookup "users" [("_id", "id"); ("usr_name", "username")]
              (Some [Exact "_id"]) Hnd) as (Htable & Hlookup & _).
  split; [exact Hnd|]. split; [exact Htable|].
  apply Hlookup. right. now left.
Defined.

(** ** Documents the rename table does not touch *)

Section Untouched.
Context `{Mongodb}.
Variable this : MongoDataAccess.
Implicit Types (d document : Document) (k : string) (v : Value).

Lemma renameEntries_untouched dataObject entries document :
  (forall f p, In (f, p) entries -> getProp p dataObject = None) ->
  fold_left (renameEntry dataObject) entries document = document.
Proof.
  revert document. induction entries as [|[f p] entries IH]; simpl; intros document Hno;
    [reflexivity|].
  unfold hasOwnProperty. rewrite (Hno f p (or_introl eq_refl)).
  apply IH. intros f' p' Hin. apply (Hno f' p'). now right.
Qed.

Lemma renameFields_untouched d :
  wellFormed d ->
  ~ In "__proto__" (keys d) ->
  (forall f p, In (f, p) (fieldsPropsMap this) -> getProp p d = None) ->
  renameFields this d = d.
Proof.
  intros Hwf Hpd Hno. unfold renameFields. rewrite !(assign_nil d Hwf Hpd).
  now apply renameEntries_untouched.
Qed.

Lemma toDataLoop_untouched d : forall suf pre,
  d = (pre ++ suf)%list ->
  wellFormed d ->
  ~ In "__proto__" (keys d) ->
  (forall k, In k (keys suf) -> Map_get (fieldsPropsMap this) k = None) ->
  toDataLoop this d (keys suf) pre = d.
Proof.
  induction suf as [|[k v] suf IH]; simpl; intros pre Hd Hwf Hpd Hno.
  - now rewrite app_nil_r in Hd.
  - unfold toDataLoop in *. simpl.
    unfold applicationName. rewrite (Hno k (or_introl eq_refl)).
    assert (Hget : getProp k d = Some v).
    { apply In_getProp_wf; [exact Hwf|]. rewrite Hd. apply in_or_app. right. now left. }
    rewrite (readProp_getProp _ _ _ Hget).
    assert (Hfresh : ~ In k (keys pre)).
    { unfold wellFormed, keys in Hwf. rewrite Hd, map_app in Hwf. simpl in Hwf.
      apply NoDup_remove_2 in Hwf. intros Hin. apply Hwf. apply in_or_app. now left. }
    assert (Hk : k <> "__proto__").
    { intros ->. apply Hpd. apply (getProp_Some_keys _ _ _ Hget). }
    rewrite (setProp_fresh _ _ _ Hfresh Hk).
    apply IH; [now rewrite <- app_assoc | exact Hwf | exact Hpd |].
    intros k0 Hin. apply Hno. now right.
Qed.

(** X3.  [mapDocumentToData] returns a document none of whose field names
    is a stored name of the rename table, and none of whose fields is
    called [__proto__], as it is, field for field and in the same order.
    (An own field [__proto__] is not taken by the copy of line 122.) *)
Theorem mapDocumentToData_untouched d :
  wellFormed d ->
  ~ In "__proto__" (keys d) ->
  (forall k, In k (keys d) -> Map_get (fieldsPropsMap this) k = None) ->
  mapDocumentToData this d = d.
Proof.
  intros Hwf Hpd Hno. rewrite mapDocumentToData_loop, (assign_nil d Hwf Hpd).
  now apply (toDataLoop_untouched d d []).
Qed.

Lemma parseKeys_unselected ks document :
  (forall k, In k ks -> selected this k = false) ->
  parseKeys this ks document = Ok document.
Proof.
  induction ks as [|key ks IH]; simpl; intros Hun; [reflexivity|].
  rewrite (parseSelectors_unselected _ _ _ _ (Hun key (or_introl eq_refl))). simpl.
  apply IH. intros k Hin. apply Hun. now right.
Qed.
End Untouched.

(** X2.  [mapDataToDocument] returns a document none of whose field names
    is the application name of a rename entry, and none of whose fields is
    called [__proto__], as it is, field for field and in the same order,
    except that a null or undefined [_id] is removed.  (An own field
    [__proto__] is not taken by the copies of lines 104 and 105.) *)
Theorem mapDataToDocument_untouched `{Mongodb} (this : MongoDataAccess) (d : Document) :
  wellFormed d ->
  ~ In "__proto__" (keys d) ->
  (forall f p, In (f, p) (fieldsPropsMap this) -> getProp p d = None) ->
  mapDataToDocument this (Some d) =
  if isNullish (readProp d "_id") then deleteProp "_id" d else d.
Proof.
  intros Hwf Hpd Hno. simpl. now rewrite (renameFields_untouched this d Hwf Hpd Hno).
Qed.

Lemma mapDataToDocument_untouched_witness :
  let d : Document := [("_id", VNull); ("age", VNum 30)] in
  wellFormed d /\
  ~ In "__proto__" (keys d) /\
  (forall f p, In (f, p) (fieldsPropsMap Scenario.access) -> getProp p d = None) /\
  mapDataToDocument Scenario.access (Some d) = [("age", VNum 30)].
Proof.
  intros d.
  assert (Hwf : wellFormed d) by (unfold wellFormed; simpl; distinct_strings).
  assert (Hpd : ~ In "__proto__" (keys d)) by not_among.
  assert (Hno : forall f p, In (f, p) (fieldsPropsMap Scenario.access) -> getProp p d = None).
  { simpl. intros f p [[= <- <-]|[[= <- <-]|[]]]; reflexivity. }
  split; [exact Hwf|]. split; [exact Hpd|]. split; [exact Hno|].
  exact (mapDataToDocument_untouched Scenario.access d Hwf Hpd Hno).
Defined.

Lemma mapDocumentToData_untouched_witness :
  let d : Document := [("age", VNum 30); ("city", VStr "Oslo")] in
  wellFormed d /\
  ~ In "__proto__" (keys d) /\
  (forall k, In k (keys d) -> Map_get (fieldsPropsMap Scenario.access) k = None) /\
  mapDocumentToData Scenario.access d = d.
Proof.
  intros d.
  assert (Hwf : wellFormed d) by (unfold wellFormed; simpl; distinct_strings).
  assert (Hpd : ~ In "__proto__" (keys d)) by not_among.
  assert (Hno : forall k, In k (keys d) -> Map_get (fieldsPropsMap Scenario.access) k = None).
  { simpl. intros k [<-|[<-|[]]]; reflexivity. }
  split; [exact Hwf|]. split; [exact Hpd|]. split; [exact Hno|].
  exact (mapDocumentToData_untouched Scenario.access d Hwf Hpd Hno).
Defined.

(** X4.  [parseStringsIDs] returns a document none of whose field names
    matches an identifier selector as it is, and does not throw. *)
Theorem parseStringsIDs_unselected `{Mongodb} (this : MongoDataAccess) (d : Document) :
  (forall k, In k (keys d) -> selected this k = false) ->
  parseStringsIDs this d = Ok d.
Proof. intros Hun. now apply parseKeys_unselected. Qed.

Lemma parseStringsIDs_unselected_witness :
  let d : Document := [("id", VStr "not an identifier"); ("username", VStr "ann")] in
  (forall k, In k (keys d) -> selected Scenario.access k = false) /\
  parseStringsIDs Scenario.access d = Ok d.
Proof.
  intros d.
  assert (Hun : forall k, In k (keys d) -> selected Scenario.access k = false).
  { simpl. intros k [<-|[<-|[]]]; reflexivity. }
  split; [exact Hun|].
  exact (parseStringsIDs_unselected Scenario.access d Hun).
Defined.

(** ** What [mapDataToDocument] always returns *)

(** X5.  Whatever it is given, [mapDataToDocument] returns an object
    whose [_id], when there is one, is neither null nor undefined, and in
    which no field name occurs twice; for [null] it returns the empty
    object. *)
Theorem mapDataToDocument_output `{Mongodb} (this : MongoDataAccess)
    (data : option Document) :
  wellFormed (mapDataToDocument this data) /\
  (forall v, getProp "_id" (mapDataToDocument this data) = Some v -> isNullish v = false) /\
  mapDataToDocument this None = [].
Proof.
  split; [apply mapDataToDocument_wellFormed|]. split; [|reflexivity].
  destruct data as [d|]; simpl; [|discriminate].
  intros v. destruct (isNullish (readProp (renameFields this d) "_id")) eqn:Hnull.
  - rewrite getProp_deleteProp. simpl. discriminate.
  - intros Hget. now rewrite (readProp_getProp _ _ _ Hget) in Hnull.
Qed.

(** ** Entries that rename a field to itself *)

Section IdentityEntry.
Context `{Mongodb}.
Variable this : MongoDataAccess.
Implicit Types (d document : Document) (k f : string).

Lemma renameEntries_not_set dataObject entries f : forall document,
  ~ In f (map fst entries) ->
  getProp f document = None ->
  getProp f (fold_left (renameEntry dataObject) entries document) = None.
Proof.
  induction entries as [|[f0 p0] entries IH]; simpl; intros document Hnot Hnone;
    [exact Hnone|].
  apply IH; [tauto|].
  destruct (hasOwnProperty dataObject p0); [|exact Hnone].
  rewrite getProp_deleteProp, getProp_setProp.
  destruct (String.eqb f p0); [reflexivity|].
  destruct (String.eqb_spec f f0) as [->|Hne]; [tauto | exact Hnone].
Qed.

Lemma renameEntries_identity dataObject entries f : forall document,
  NoDup (map fst entries) ->
  In (f, f) entries ->
  (getProp f dataObject = None -> getProp f document = None) ->
  getProp f (fold_left (renameEntry dataObject) entries document) = None.
Proof.
  induction entries as [|[f0 p0] entries IH]; simpl; intros document Hnd Hin Hcopy; [tauto|].
  inversion Hnd as [|? ? Hnot Hnd']; subst.
  destruct Hin as [[= -> ->]|Hin].
  - apply renameEntries_not_set; [exact Hnot|].
    unfold hasOwnProperty. destruct (getProp f dataObject) eqn:Hget.
    + now rewrite getProp_deleteProp, String.eqb_refl.
    + now apply Hcopy.
  - apply IH; [exact Hnd' | exact Hin |].
    intros Hnone. destruct (hasOwnProperty dataObject p0); [|now apply Hcopy].
    rewrite getProp_deleteProp, getProp_setProp.
    destruct (String.eqb f p0); [reflexivity|].
    destruct (String.eqb_spec f f0) as [->|Hne]; [|now apply Hcopy].
    exfalso. apply Hnot. change (In (fst (f0, f0)) (map fst entries)). now apply in_map.
Qed.

Lemma getProp_assign_nil_None d k : getProp k d = None -> getProp k (assign [] d) = None.
Proof.
  intros Hnone. apply getProp_None. intros Hin.
  apply In_keys_assign in Hin as [[]|Hin]. now apply getProp_None in Hnone.
Qed.
End IdentityEntry.

(** X6.  A rename entry that maps a stored name to itself removes the
    field: whatever the document, [mapDataToDocument] returns no field of
    that name. *)
Theorem identity_entry_drops_field `{Mongodb} (this : MongoDataAccess)
    (d : Document) (f : string) :
  NoDup (map fst (fieldsPropsMap this)) ->
  In (f, f) (fieldsPropsMap this) ->
  getProp f (mapDataToDocument this (Some d)) = None.
Proof.
  intros Hnd Hin.
  assert (Hren : getProp f (renameFields this d) = None).
  { unfold renameFields. apply renameEntries_identity; [exact Hnd | exact Hin |].
    intros Hnone. now apply getProp_assign_nil_None. }
  simpl. destruct (isNullish _); [|exact Hren].
  rewrite getProp_deleteProp. now destruct (String.eqb f "_id").
Qed.

Lemma identity_entry_drops_field_witness :
  let this := constructor "users"
                (Some {| opt_fieldsProps := Some [("name", "name")]; opt_idFields := None |}) in
  let d : Document := [("name", VStr "ann"); ("age", VNum 30)] in
  NoDup (map fst (fieldsPropsMap this)) /\
  In ("name", "name") (fieldsPropsMap this) /\
  mapDataToDocument this (Some d) = [("age", VNum 30)] /\
  getProp "name" (mapDataToDocument this (Some d)) = None.
Proof.
  intros this d.
  assert (Hnd : NoDup (map fst (fieldsPropsMap this)))
    by apply constructor_fieldsPropsMap_NoDup.
  assert (Hin : In ("name", "name") (fieldsPropsMap this)) by (now left).
  split; [exact Hnd|]. split; [exact Hin|]. split; [reflexivity|].
  exact (identity_entry_drops_field this d "name" Hnd Hin).
Defined.

(** ** Renaming back and there *)

Section StoredRoundTrip.
Context `{Mongodb}.
Variable this : MongoDataAccess.
Implicit Types (d s : Document) (k f p : string) (v : Value).

Lemma application_name_unique (T : list (string * string)) f1 f2 p :
  NoDup (map snd T) -> In (f1, p) T -> In (f2, p) T -> f1 = f2.
Proof.
  induction T as [|[f0 p0] T IH]; simpl; [tauto|].
  intros Hnd H1 H2. inversion Hnd as [|? ? Hnot Hnd']; subst.
  destruct H1 as [E1|H1], H2 as [E2|H2].
  - congruence.
  - injection E1 as -> ->. exfalso. apply Hnot.
    change (In (snd (f2, p)) (map snd T)). now apply in_map.
  - injection E2 as -> ->. exfalso. apply Hnot.
    change (In (snd (f1, p)) (map snd T)). now apply in_map.
  - now apply IH.
Qed.

Lemma isApplicationName_In (T : list (string * string)) f p :
  In (f, p) T -> isApplicationName T p = true.
Proof.
  intros Hin. unfold isApplicationName. apply existsb_exists.
  exists (f, p). split; [exact Hin|]. apply String.eqb_refl.
Qed.

(** X7.  When the rename table pairs stored names and application names
    one to one, no name is both and none is [__proto__], a stored document
    (none of its field names is an application name of the table, and
    none is [__proto__]) whose [_id] is absent or not null comes back with
    the same fields and values from
    [mapDataToDocument (mapDocumentToData s)]. *)
Theorem roundtrip_stored_form s :
  NoDup (map fst (fieldsPropsMap this)) ->
  NoDup (map snd (fieldsPropsMap this)) ->
  (forall p, In p (map snd (fieldsPropsMap this)) -> ~ In p (map fst (fieldsPropsMap this))) ->
  ~ In "__proto__" (map fst (fieldsPropsMap this)) ->
  ~ In "__proto__" (map snd (fieldsPropsMap this)) ->
  wellFormed s ->
  ~ In "__proto__" (keys s) ->
  (forall k, In k (keys s) -> ~ In k (map snd (fieldsPropsMap this))) ->
  (forall v, getProp "_id" s = Some v -> isNullish v = false) ->
  sameProperties (mapDataToDocument this (Some (mapDocumentToData this s))) s.
Proof.
  intros Hf Hs Hdisj Hpf Hpp Hwf Hps Hstored Hid.
  set (T := fieldsPropsMap this) in *.
  pose proof (mapDocumentToData_wellFormed this s) as Hwfa.
  set (a := mapDocumentToData this s) in *.
  assert (Hname : forall k p, Map_get T k = Some p -> applicationName this k = p).
  { intros k p E. unfold applicationName. fold T. now rewrite E. }
  assert (Hname' : forall k, Map_get T k = None -> applicationName this k = k).
  { intros k E. unfold applicationName. fold T. now rewrite E. }
  assert (Hsnd : forall f p, In (f, p) T -> In p (map snd T)).
  { intros f p Hin. change (In (snd (f, p)) (map snd T)). now apply in_map. }
  assert (A1 : forall k' v, getProp k' a = Some v ->
                            exists k, getProp k s = Some v /\ applicationName this k = k').
  { intros k' v Hget.
    destruct (mapDocumentToData_provenance this _ _ _ Hget) as (k & Hin & Happ).
    exists k. split; [now apply In_getProp_wf | exact Happ]. }
  assert (Hinj : forall k1 k2, In k1 (keys s) -> In k2 (keys s) ->
                               applicationName this k1 = applicationName this k2 -> k1 = k2).
  { intros k1 k2 H1 H2.
    destruct (Map_get T k1) as [p1|] eqn:E1, (Map_get T k2) as [p2|] eqn:E2.
    - rewrite (Hname _ _ E1), (Hname _ _ E2). intros ->.
      apply Map_get_Some_In in E1, E2. now apply (application_name_unique T k1 k2 p2).
    - rewrite (Hname _ _ E1), (Hname' _ E2). intros ->.
      apply Map_get_Some_In in E1. exfalso. apply (Hstored k2 H2). now apply (Hsnd k1).
    - rewrite (Hname' _ E1), (Hname _ _ E2). intros ->.
      apply Map_get_Some_In in E2. exfalso. apply (Hstored p2 H1). now apply (Hsnd k2).
    - now rewrite (Hname' _ E1), (Hname' _ E2). }
  assert (A3 : forall k v, getProp k s = Some v -> getProp (applicationName this k) a = Some v).
  { intros k v Hget. pose proof (getProp_Some_keys _ _ _ Hget) as Hin.
    assert (Hk : k <> "__proto__") by (intros ->; now apply Hps).
    assert (Hina : In (applicationName this k) (keys a)).
    { apply mapDocumentToData_keys. exists k. split; [exact Hin|]. split; [exact Hk|].
      split; [reflexivity|].
      destruct (Map_get T k) as [p|] eqn:E.
      - rewrite (Hname _ _ E). intros ->. apply Hpp.
        apply Map_get_Some_In in E. now apply (Hsnd k).
      - now rewrite (Hname' _ E). }
    destruct (getProp_In_keys _ _ Hina) as [v' Hv'].
    destruct (A1 _ _ Hv') as (k2 & Hget2 & Happ2).
    assert (k2 = k) by (apply Hinj; [now apply (getProp_Some_keys _ _ v') | exact Hin | exact Happ2]).
    subst k2. congruence. }
  assert (Happa : forall k, In k (keys a) -> ~ In k (map fst T)).
  { intros k Hin. apply mapDocumentToData_keys in Hin as (k0 & Hin0 & _ & -> & _).
    destruct (Map_get T k0) as [p|] eqn:E.
    - rewrite (Hname _ _ E). apply Hdisj. apply Map_get_Some_In in E. now apply (Hsnd k0).
    - rewrite (Hname' _ E). now apply Map_get_None. }
  pose proof (renameFields_renamed this a Hf Hpf Hwfa (mapDocumentToData_plain this s) Happa)
    as Hren.
  unfold renamed, storedValue in Hren. fold T in Hren.
  assert (Hback : forall k, getProp k (renameFields this a) = getProp k s).
  { intros k. rewrite (Hren k).
    destruct (Map_get T k) as [p|] eqn:E.
    - destruct (getProp k s) as [v|] eqn:Hget.
      + rewrite <- (Hname _ _ E). now apply A3.
      + destruct (getProp p a) as [v|] eqn:Hpa; [|reflexivity].
        exfalso. destruct (A1 _ _ Hpa) as (k2 & Hget2 & Happ2).
        apply Map_get_Some_In in E.
        destruct (Map_get T k2) as [p2|] eqn:E2.
        * rewrite (Hname _ _ E2) in Happ2. subst p2. apply Map_get_Some_In in E2.
          assert (k2 = k) by now apply (application_name_unique T k2 k p).
          subst k2. congruence.
        * rewrite (Hname' _ E2) in Happ2. subst k2.
          apply (Hstored p (getProp_Some_keys _ _ _ Hget2)). now apply (Hsnd k).
    - destruct (isApplicationName T k) eqn:Hisapp.
      + symmetry. apply getProp_None. intros Hin. apply (Hstored k Hin).
        destruct (isApplicationName_true _ _ Hisapp) as [f Hf']. now apply (Hsnd f).
      + destruct (getProp k s) as [v|] eqn:Hget.
        * rewrite <- (Hname' _ E) at 1. now apply A3.
        * destruct (getProp k a) as [v|] eqn:Hka; [|reflexivity].
          exfalso. destruct (A1 _ _ Hka) as (k2 & Hget2 & Happ2).
          destruct (Map_get T k2) as [p2|] eqn:E2.
          -- rewrite (Hname _ _ E2) in Happ2. subst p2. apply Map_get_Some_In in E2.
             rewrite (isApplicationName_In T k2 k E2) in Hisapp. discriminate.
          -- rewrite (Hname' _ E2) in Happ2. subst k2. congruence. }
  assert (Hidr : getProp "_id" (renameFields this a) = None \/
                 isNullish (primaryIdentifier this (Some a)) = false).
  { destruct (getProp "_id" (renameFields this a)) as [v|] eqn:Hget; [right | now left].
    simpl. rewrite (readProp_getProp _ _ _ Hget). apply Hid. now rewrite <- Hback. }
  intros k. rewrite (mapDataToDocument_sameProperties this a Hidr k). apply Hback.
Qed.
End StoredRoundTrip.

Lemma roundtrip_stored_form_witness :
  NoDup (map fst (fieldsPropsMap Scenario.access)) /\
  NoDup (map snd (fieldsPropsMap Scenario.access)) /\
  ~ In "__proto__" (map fst (fieldsPropsMap Scenario.access)) /\
  ~ In "__proto__" (map snd (fieldsPropsMap Scenario.access)) /\
  wellFormed Scenario.stored /\
  ~ In "__proto__" (keys Scenario.stored) /\
  mapDocumentToData Scenario.access Scenario.stored =
    [("id", VOid Scenario.X); ("username", VStr "ann")] /\
  sameProperties
    (mapDataToDocument Scenario.access (Some (mapDocumentToData Scenario.access Scenario.stored)))
    Scenario.stored.
Proof.
  assert (Hf : NoDup (map fst (fieldsPropsMap Scenario.access)))
    by apply constructor_fieldsPropsMap_NoDup.
  assert (Hs : NoDup (map snd (fieldsPropsMap Scenario.access)))
    by (simpl; distinct_strings).
  assert (Hwf : wellFormed Scenario.stored)
    by (unfold wellFormed; simpl; distinct_strings).
  assert (Hpf : ~ In "__proto__" (map fst (fieldsPropsMap Scenario.access))) by not_among.
  assert (Hpp : ~ In "__proto__" (map snd (fieldsPropsMap Scenario.access))) by not_among.
  assert (Hps : ~ In "__proto__" (keys Scenario.stored)) by not_among.
  split; [exact Hf|]. split; [exact Hs|]. split; [exact Hpf|]. split; [exact Hpp|].
  split; [exact Hwf|]. split; [exact Hps|]. split; [reflexivity|].
  apply (roundtrip_stored_form Scenario.access Scenario.stored Hf Hs).
  - simpl. intros p [<-|[<-|[]]]; not_among.
  - exact Hpf.
  - exact Hpp.
  - exact Hwf.
  - exact Hps.
  - simpl. intros k [<-|[<-|[]]]; not_among.
  - simpl. intros v [= <-]. reflexivity.
Defined.

(** ** Identifier coercion, field by field *)

Section CoercionByField.
Context `{Mongodb}.
Variable this : MongoDataAccess.
Implicit Types (d document : Document) (k key : string) (v : Value).

Lemma parseValue_not_array v v' : parseValue v = Ok v' -> isArray v' = false.
Proof.
  unfold parseValue. destruct v; try (destruct (ObjectId_new _); intros [= <-]; reflexivity).
  intros [= <-]. reflexivity.
Qed.

Lemma parseValue_throws v e : parseValue v = Throw e -> e = BSONError.
Proof.
  unfold parseValue.
  destruct v; try (destruct (ObjectId_new _); [discriminate | now intros [= <-]]).
  discriminate.
Qed.

Lemma array_map_parseValue_throws items e :
  array_map parseValue items = Throw e -> e = BSONError.
Proof.
  induction items as [|x items IH]; simpl; [discriminate|].
  destruct (parseValue x) as [y|e0] eqn:Ex; simpl.
  - destruct (array_map parseValue items) as [ys|e1]; simpl; [discriminate|].
    intros [= <-]. now apply IH.
  - intros [= <-]. now apply (parseValue_throws x).
Qed.

Lemma parseSelector_throws key v document selector e :
  parseSelector key v document selector = Throw e -> e = BSONError.
Proof.
  destruct selector as [name|matches]; simpl.
  - destruct (String.eqb key name); [|discriminate].
    destruct (parseValue v) as [v'|e0] eqn:E; simpl; [discriminate|].
    intros [= <-]. now apply (parseValue_throws v).
  - destruct (matches key); [|discriminate].
    destruct v as [| |b|n|s|o|items|fields]; cbv iota;
      try (destruct (parseValue _) as [v'|e0] eqn:E; simpl; [discriminate|];
           intros [= <-]; now apply (parseValue_throws _ _ E)).
    destruct (array_map parseValue items) as [items'|e0] eqn:E; simpl; [discriminate|].
    intros [= <-]. now apply (array_map_parseValue_throws items).
Qed.

Lemma parseSelectors_throws key v selectors : forall document e,
  parseSelectors key v selectors document = Throw e -> e = BSONError.
Proof.
  induction selectors as [|sel selectors IH]; simpl; intros document e; [discriminate|].
  destruct (parseSelector key v document sel) as [d1|e0] eqn:E; simpl.
  - apply IH.
  - intros [= <-]. now apply (parseSelector_throws _ _ _ _ _ E).
Qed.

Lemma parseKeys_throws ks : forall document e,
  parseKeys this ks document = Throw e -> e = BSONError.
Proof.
  induction ks as [|key ks IH]; simpl; intros document e; [discriminate|].
  destruct (parseSelectors key (readProp document key) (idFields this) document)
    as [d1|e0] eqn:E; simpl.
  - apply IH.
  - intros [= <-]. now apply (parseSelectors_throws _ _ _ _ _ E).
Qed.

Lemma parseSelector_scalar key v document selector :
  isArray v = false ->
  selects key selector = true ->
  parseSelector key v document selector =
  rbind (parseValue v) (fun v' => Ok (setProp key v' document)).
Proof.
  destruct selector as [name|matches]; simpl; intros Harr ->; [reflexivity|].
  destruct v; try reflexivity. discriminate.
Qed.

Lemma parseSelectors_scalar key v v' selectors : forall document,
  In key (keys document) ->
  isArray v = false ->
  parseValue v = Ok v' ->
  existsb (selects key) selectors = true ->
  exists document',
    parseSelectors key v selectors document = Ok document' /\
    getProp key document' = Some v'.
Proof.
  induction selectors as [|sel selectors IH]; simpl; intros document Hin Harr Hv;
    [discriminate|].
  destruct (selects key sel) eqn:Hs; simpl.
  - intros _. rewrite (parseSelector_scalar _ _ _ _ Harr Hs), Hv. simpl.
    destruct (existsb (selects key) selectors) eqn:Hrest.
    + apply IH; [now rewrite keys_setProp_In | exact Harr | exact Hv | reflexivity].
    + rewrite (parseSelectors_unselected _ _ _ _ Hrest).
      eexists. split; [reflexivity|].
      apply getProp_setProp_same. apply assignable_true. now right.
  - intros Hrest. rewrite (parseSelector_unselected _ _ _ _ Hs). simpl. now apply IH.
Qed.

Lemma parseSelectors_scalar_throws key v e selectors : forall document,
  isArray v = false ->
  parseValue v = Throw e ->
  existsb (selects key) selectors = true ->
  parseSelectors key v selectors document = Throw e.
Proof.
  induction selectors as [|sel selectors IH]; simpl; intros document Harr Hv; [discriminate|].
  destruct (selects key sel) eqn:Hs; simpl.
  - intros _. now rewrite (parseSelector_scalar _ _ _ _ Harr Hs), Hv.
  - intros Hrest. rewrite (parseSelector_unselected _ _ _ _ Hs). simpl. now apply IH.
Qed.

Lemma parseSelectors_other key v selectors k : forall document document',
  parseSelectors key v selectors document = Ok document' ->
  k <> key ->
  getProp k document' = getProp k document.
Proof.
  induction selectors as [|sel selectors IH]; simpl; intros document document'.
  - now intros [= <-].
  - destruct (parseSelector key v document sel) as [d1|e] eqn:E1; simpl; [|discriminate].
    intros E2 Hne. rewrite (IH _ _ E2 Hne).
    destruct (parseSelector_assigns _ _ _ _ _ E1) as [->|[v' ->]]; [reflexivity|].
    now apply getProp_setProp_other.
Qed.

Lemma parseSelectors_array key items selectors : forall document document',
  In key (keys document) ->
  (forall name, In (Exact name) selectors -> name <> key) ->
  existsb (selects key) selectors = true ->
  parseSelectors key (VArr items) selectors document = Ok document' ->
  exists items',
    array_map parseValue items = Ok items' /\
    getProp key document' = Some (VArr items').
Proof.
  induction selectors as [|sel selectors IH]; simpl; intros document document' Hin Hpat;
    [discriminate|].
  assert (Hpat' : forall name, In (Exact name) selectors -> name <> key).
  { intros name Hname. apply Hpat. now right. }
  destruct sel as [name|matches]; simpl.
  - destruct (String.eqb_spec key name) as [->|Hne].
    + exfalso. now apply (Hpat name (or_introl eq_refl)).
    + simpl. now apply IH.
  - destruct (matches key) eqn:Hm; simpl; [|now apply IH].
    intros _. destruct (array_map parseValue items) as [items'|e] eqn:Hmap; simpl;
      [|discriminate].
    intros Hrest. destruct (existsb (selects key) selectors) eqn:Hex.
    + assert (Hin' : In key (keys (setProp key (VArr items') document)))
        by (now rewrite keys_setProp_In).
      now apply (IH _ _ Hin' Hpat' eq_refl Hrest).
    + rewrite (parseSelectors_unselected _ _ _ _ Hex) in Hrest. injection Hrest as <-.
      exists items'. split; [reflexivity|].
      apply getProp_setProp_same. apply assignable_true. now right.
Qed.

Lemma parseKeys_succeeds_scalar ks : forall document,
  NoDup ks ->
  (forall k, In k ks -> In k (keys document)) ->
  (forall k, In k ks -> selected this k = true ->
             exists v v', getProp k document = Some v /\ isArray v = false /\
                          parseValue v = Ok v') ->
  exists document', parseKeys this ks document = Ok document'.
Proof.
  induction ks as [|key0 ks IH]; simpl; intros document Hnd Hsub Hok.
  - now exists document.
  - inversion Hnd as [|? ? Hnot Hnd']; subst.
    assert (Hstep : exists d1,
               parseSelectors key0 (readProp document key0) (idFields this) document = Ok d1).
    { destruct (selected this key0) eqn:Hsel.
      - destruct (Hok key0 (or_introl eq_refl) Hsel) as (v & v' & Hget & Harr & Hv).
        rewrite (readProp_getProp _ _ _ Hget).
        destruct (parseSelectors_scalar key0 v v' (idFields this) document
                    (Hsub key0 (or_introl eq_refl)) Harr Hv Hsel) as (d1 & E & _).
        now exists d1.
      - exists document. now apply parseSelectors_unselected. }
    destruct Hstep as [d1 E1]. rewrite E1. simpl.
    destruct (parseSelectors_keys _ _ _ _ _ (Hsub key0 (or_introl eq_refl)) E1) as [Hk1 Hg1].
    apply IH; [exact Hnd'| |].
    + intros k Hk. rewrite Hk1. apply Hsub. now right.
    + intros k Hk Hsel. rewrite Hg1 by (intros ->; contradiction).
      apply Hok; [now right | exact Hsel].
Qed.

Lemma parseKeys_malformed ks k v : forall document,
  In k ks ->
  getProp k document = Some v ->
  selected this k = true ->
  isArray v = false ->
  parseValue v = Throw BSONError ->
  parseKeys this ks document = Throw BSONError.
Proof.
  induction ks as [|key0 ks IH]; simpl; intros document Hin Hget Hsel Harr Hv; [tauto|].
  destruct (String.eqb_spec key0 k) as [->|Hne].
  - rewrite (readProp_getProp _ _ _ Hget).
    now rewrite (parseSelectors_scalar_throws k v BSONError (idFields this) document Harr Hv Hsel).
  - destruct Hin as [->|Hin]; [contradiction|].
    destruct (parseSelectors key0 (readProp document key0) (idFields this) document)
      as [d1|e] eqn:E1; simpl.
    + apply IH; try assumption.
      rewrite (parseSelectors_other _ _ _ k _ _ E1); [exact Hget | congruence].
    + now rewrite (parseSelectors_throws _ _ _ _ _ E1).
Qed.

(** Two objects with the same field names in the same order and the same
    value under each name are equal. *)
Lemma document_ext : forall d1 d2,
  keys d1 = keys d2 -> wellFormed d1 -> sameProperties d1 d2 -> d1 = d2.
Proof.
  unfold wellFormed, sameProperties.
  induction d1 as [|[k1 v1] d1 IH]; intros [|[k2 v2] d2]; simpl; try discriminate;
    [reflexivity|].
  intros [= <- Hkeys] Hnd Hsame. inversion Hnd as [|? ? Hnot Hnd']; subst.
  pose proof (Hsame k1) as Hhead. rewrite String.eqb_refl in Hhead. injection Hhead as <-.
  f_equal. apply IH; [exact Hkeys | exact Hnd' |].
  intros k. destruct (String.eqb_spec k k1) as [->|Hne].
  - transitivity (@None Value); [|symmetry]; apply getProp_None; [exact Hnot|].
    unfold keys in *. now rewrite <- Hkeys.
  - specialize (Hsame k). destruct (String.eqb_spec k k1); [contradiction | exact Hsame].
Qed.

(** [parseStringsIDs] on a document whose selected fields hold values
    that are no arrays and that [parseValue] accepts. *)
Lemma parseStringsIDs_scalar_aux d :
  wellFormed d ->
  (forall k v, getProp k d = Some v -> selected this k = true ->
               isArray v = false /\ exists v', parseValue v = Ok v') ->
  exists d',
    parseStringsIDs this d = Ok d' /\
    keys d' = keys d /\
    forall k v, getProp k d = Some v ->
      (selected this k = false -> getProp k d' = Some v) /\
      (selected this k = true -> forall v', parseValue v = Ok v' -> getProp k d' = Some v').
Proof.
  intros Hwf Hok. unfold parseStringsIDs.
  destruct (parseKeys_succeeds_scalar (keys d) d Hwf (fun k Hin => Hin)) as [d' E].
  { intros k Hin Hsel. destruct (getProp_In_keys _ _ Hin) as [v Hget].
    destruct (Hok k v Hget Hsel) as (Harr & v' & Hv). now exists v, v'. }
  exists d'. split; [exact E|].
  destruct (parseKeys_keys this (keys d) d d' (fun k Hin => Hin) E) as [Hkeys _].
  split; [exact Hkeys|].
  intros k v Hget.
  assert (Hin : In k (keys d)).
  { destruct (in_dec string_dec k (keys d)) as [Hi|Hn]; [exact Hi|].
    apply getProp_None in Hn. congruence. }
  destruct (parseKeys_visited this (keys d) d d' k Hwf (fun k0 Hk0 => Hk0) E Hin)
    as (d1 & d2 & Hsel & Hg1 & Hg2).
  rewrite (readProp_getProp _ _ _ Hget) in Hsel. split.
  - intros Hun. rewrite (parseSelectors_unselected _ _ _ _ Hun) in Hsel.
    injection Hsel as <-. congruence.
  - intros Hs v' Hv. destruct (Hok k v Hget Hs) as (Harr & _).
    assert (Hin1 : In k (keys d1)).
    { apply (getProp_Some_keys d1 k v). congruence. }
    destruct (parseSelectors_scalar k v v' (idFields this) d1 Hin1 Harr Hv Hs)
      as (d2' & Hsel' & Hg).
    congruence.
Qed.
End CoercionByField.

(** X8.  On an object whose selected fields hold values that are no
    arrays and that [new ObjectId] accepts (or native identifiers),
    [parseStringsIDs] returns; the result has the same field names in the
    same order, every selected field holds what [parseValue] makes of its
    value, and every other field holds its value. *)
Theorem parseStringsIDs_scalar_fields `{Mongodb} (this : MongoDataAccess) (d : Document) :
  wellFormed d ->
  (forall k v, getProp k d = Some v -> selected this k = true ->
               isArray v = false /\ exists v', parseValue v = Ok v') ->
  exists d',
    parseStringsIDs this d = Ok d' /\
    keys d' = keys d /\
    forall k v, getProp k d = Some v ->
      (selected this k = false -> getProp k d' = Some v) /\
      (selected this k = true -> forall v', parseValue v = Ok v' -> getProp k d' = Some v').
Proof. apply parseStringsIDs_scalar_aux. Qed.

Lemma parseStringsIDs_scalar_fields_witness :
  let d : Document := [("_id", VStr "507f1f77bcf86cd799439011"); ("usr_name", VStr "ann")] in
  wellFormed d /\
  parseStringsIDs Scenario.access d = Ok [("_id", VOid Scenario.X); ("usr_name", VStr "ann")] /\
  exists d', parseStringsIDs Scenario.access d = Ok d' /\ keys d' = keys d.
Proof.
  intros d.
  assert (Hwf : wellFormed d) by (unfold wellFormed; simpl; distinct_strings).
  split; [exact Hwf|]. split; [reflexivity|].
  destruct (parseStringsIDs_scalar_fields Scenario.access d Hwf) as (d' & E & Hkeys & _).
  - intros k v. simpl.
    destruct (String.eqb_spec k "_id") as [->|_];
      [|destruct (String.eqb_spec k "usr_name") as [->|_]].
    + intros [= <-] _. split; [reflexivity|]. eexists. reflexivity.
    + intros [= <-] Hsel. discriminate Hsel.
    + discriminate.
  - now exists d'.
Defined.

(** X9.  Coercing twice gives the object back: on an object whose
    selected fields hold values that [parseValue] converts there and back
    (a native identifier whose string form [new ObjectId] reads as that
    identifier, or such a string), [parseStringsIDs] applied to its own
    result returns the object it started from. *)
Theorem parseStringsIDs_twice `{Mongodb} (this : MongoDataAccess) (d : Document) :
  wellFormed d ->
  (forall k v, getProp k d = Some v -> selected this k = true ->
               isArray v = false /\
               exists v', parseValue v = Ok v' /\ parseValue v' = Ok v) ->
  exists d1, parseStringsIDs this d = Ok d1 /\ parseStringsIDs this d1 = Ok d.
Proof.
  intros Hwf Hback.
  destruct (parseStringsIDs_scalar_aux this d Hwf) as (d1 & E1 & Hkeys1 & Hval1).
  { intros k v Hget Hsel. destruct (Hback k v Hget Hsel) as (Harr & v' & Hv & _).
    split; [exact Harr | now exists v']. }
  assert (Hwf1 : wellFormed d1) by (unfold wellFormed; now rewrite Hkeys1).
  assert (Hfrom : forall k w, getProp k d1 = Some w ->
                              exists v, getProp k d = Some v).
  { intros k w Hget. apply getProp_In_keys. rewrite <- Hkeys1.
    now apply (getProp_Some_keys d1 k w). }
  destruct (parseStringsIDs_scalar_aux this d1 Hwf1) as (d2 & E2 & Hkeys2 & Hval2).
  { intros k w Hget Hsel. destruct (Hfrom k w Hget) as [v Hv].
    destruct (Hback k v Hv Hsel) as (_ & v' & Hto & Hfro).
    destruct (Hval1 k v Hv) as [_ Hs]. rewrite (Hs Hsel v' Hto) in Hget. injection Hget as <-.
    split; [now apply (parseValue_not_array v) | now exists v]. }
  exists d1. split; [exact E1|]. rewrite E2. f_equal.
  apply document_ext;
    [congruence | unfold wellFormed in *; now rewrite Hkeys2, Hkeys1 |].
  intros k. destruct (getProp k d) as [v|] eqn:Hv.
  - destruct (Hval1 k v Hv) as [Hun1 Hs1].
    destruct (Bool.bool_dec (selected this k) true) as [Hsel|Hsel].
    + destruct (Hback k v Hv Hsel) as (_ & v' & Hto & Hfro).
      pose proof (Hs1 Hsel v' Hto) as Hget1.
      destruct (Hval2 k v' Hget1) as [_ Hs2]. now apply Hs2.
    + apply not_true_is_false in Hsel. pose proof (Hun1 Hsel) as Hget1.
      destruct (Hval2 k v Hget1) as [Hun2 _]. now apply Hun2.
  - apply getProp_None. rewrite Hkeys2, Hkeys1. now apply getProp_None.
Qed.

Lemma parseStringsIDs_twice_witness :
  let d : Document := [("_id", VOid Scenario.X); ("usr_name", VStr "ann")] in
  wellFormed d /\
  parseStringsIDs Scenario.access d =
    Ok [("_id", VStr "507f1f77bcf86cd799439011"); ("usr_name", VStr "ann")] /\
  exists d1, parseStringsIDs Scenario.access d = Ok d1 /\
             parseStringsIDs Scenario.access d1 = Ok d.
Proof.
  intros d.
  assert (Hwf : wellFormed d) by (unfold wellFormed; simpl; distinct_strings).
  split; [exact Hwf|]. split; [reflexivity|].
  apply (parseStringsIDs_twice Scenario.access d Hwf).
  intros k v. simpl.
  destruct (String.eqb_spec k "_id") as [->|_];
    [|destruct (String.eqb_spec k "usr_name") as [->|_]].
  - intros [= <-] _. split; [reflexivity|]. eexists. split; reflexivity.
  - intros [= <-] Hsel. discriminate Hsel.
  - discriminate.
Defined.

(** X10.  A selected field that holds a value [new ObjectId] refuses (a
    malformed identifier string) makes [parseStringsIDs] throw the
    driver's error, and [insert] then fails without calling the driver. *)
Theorem malformed_identifier_throws `{Mongodb} (this : MongoDataAccess)
    (d : Document) (k : string) (v : Value) :
  getProp k d = Some v ->
  selected this k = true ->
  isArray v = false ->
  parseValue v = Throw BSONError ->
  parseStringsIDs this d = Throw BSONError /\
  forall driver data,
    mapDataToDocument this data = d ->
    insert this driver data = ([], Throw BSONError).
Proof.
  intros Hget Hsel Harr Hv.
  assert (Hthrow : parseStringsIDs this d = Throw BSONError).
  { unfold parseStringsIDs.
    apply (parseKeys_malformed this (keys d) k v d); try assumption.
    now apply (getProp_Some_keys d k v). }
  split; [exact Hthrow|].
  intros driver data <-. now apply insert_throws.
Qed.

Lemma malformed_identifier_throws_witness :
  let data : Document := [("id", VStr "not an identifier"); ("username", VStr "ann")] in
  mapDataToDocument Scenario.access (Some data) =
    [("_id", VStr "not an identifier"); ("usr_name", VStr "ann")] /\
  parseValue (VStr "not an identifier") = Throw BSONError /\
  insert Scenario.access Scenario.driver (Some data) = ([], Throw BSONError).
Proof.
  intros data.
  assert (Hv : parseValue (VStr "not an identifier") = Throw BSONError) by reflexivity.
  split; [reflexivity|]. split; [exact Hv|].
  destruct (malformed_identifier_throws Scenario.access
              [("_id", VStr "not an identifier"); ("usr_name", VStr "ann")] "_id"
              (VStr "not an identifier") eq_refl eq_refl eq_refl Hv) as [_ Hinsert].
  now apply Hinsert.
Defined.

(** X11.  An array under a field name that only pattern selectors match
    is coerced element by element: when [parseStringsIDs] returns, the
    field holds an array of the same length whose elements are, in order,
    what [parseValue] makes of the elements it held. *)
Theorem pattern_array_elementwise `{Mongodb} (this : MongoDataAccess)
    (d d' : Document) (key : string) (items : list Value) :
  wellFormed d ->
  getProp key d = Some (VArr items) ->
  selected this key = true ->
  (forall name, In (Exact name) (idFields this) -> name <> key) ->
  parseStringsIDs this d = Ok d' ->
  exists items',
    getProp key d' = Some (VArr items') /\
    length items' = length items /\
    Forall2 (fun x y => parseValue x = Ok y) items items'.
Proof.
  intros Hwf Hget Hsel Hpat E. unfold parseStringsIDs in E.
  pose proof (getProp_Some_keys d key _ Hget) as Hin.
  destruct (parseKeys_visited this (keys d) d d' key Hwf (fun k0 Hk0 => Hk0) E Hin)
    as (d1 & d2 & Hsels & Hg1 & Hg2).
  rewrite (readProp_getProp _ _ _ Hget) in Hsels.
  assert (Hin1 : In key (keys d1)).
  { apply (getProp_Some_keys d1 key (VArr items)). now rewrite Hg1. }
  destruct (parseSelectors_array key items (idFields this) d1 d2 Hin1 Hpat Hsel Hsels)
    as (items' & Hmap & Hres).
  exists items'. split; [congruence|]. split.
  - now apply array_map_length in Hmap.
  - now apply array_map_Forall2.
Qed.

Lemma pattern_array_elementwise_witness :
  let this := {| collectionName := "users"; fieldsPropsMap := [];
                 idFields := [RegExp (String.eqb "friends")] |} in
  let d : Document :=
    [("name", VStr "ann");
     ("friends", VArr [VStr "507f1f77bcf86cd799439011"; VOid Scenario.X])] in
  wellFormed d /\
  parseStringsIDs this d =
    Ok [("name", VStr "ann");
        ("friends", VArr [VOid Scenario.X; VStr "507f1f77bcf86cd799439011"])] /\
  exists items',
    getProp "friends" [("name", VStr "ann");
        ("friends", VArr [VOid Scenario.X; VStr "507f1f77bcf86cd799439011"])]
      = Some (VArr items') /\
    length items' = 2.
Proof.
  intros this d.
  assert (Hwf : wellFormed d) by (unfold wellFormed; simpl; distinct_strings).
  split; [exact Hwf|]. split; [reflexivity|].
  destruct (pattern_array_elementwise this d
              [("name", VStr "ann");
               ("friends", VArr [VOid Scenario.X; VStr "507f1f77bcf86cd799439011"])]
              "friends" [VStr "507f1f77bcf86cd799439011"; VOid Scenario.X]
              Hwf eq_refl eq_refl) as (items' & Hres & Hlen & _).
  - simpl. intros name [Hex|[]]. discriminate Hex.
  - reflexivity.
  - now exists items'.
Defined.

(** ** One record that cannot be coerced; nothing found; no filter *)

Lemma array_map_throws_at {A B} (f : A -> result B) (E : error) items x e :
  (forall y e0, f y = Throw e0 -> e0 = E) ->
  In x items -> f x = Throw e ->
  array_map f items = Throw E.
Proof.
  intros Hall. induction items as [|y items IH]; simpl; [tauto|].
  intros [->|Hin] Hx.
  - rewrite Hx. simpl. now rewrite (Hall x e Hx).
  - destruct (f y) as [b|e0] eqn:Ey; simpl.
    + now rewrite (IH Hin Hx).
    + now rewrite (Hall y e0 Ey).
Qed.

Lemma parseDocument_throws `{Mongodb} (this : MongoDataAccess) (document : Document) e :
  parseDocument this document = Throw e -> e = BSONError.
Proof. unfold parseDocument, parseStringsIDs. apply parseKeys_throws. Qed.

(** X12.  [select] hands back all records or none: when one document of
    the driver's answer cannot be coerced, the whole call fails with the
    driver's identifier error, after its one call to [find]. *)
Theorem select_fails_on_one_record `{Mongodb}
    (this : MongoDataAccess) (driver : Driver)
    (filter : option Document) (options : option FindOptions)
    (documents : list Document) (document : Document) (e : error) :
  find driver (mapDataToDocument this (Some (orEmpty filter))) options = Ok documents ->
  In document documents ->
  parseDocument this document = Throw e ->
  select this driver filter options =
    ([Find (mapDataToDocument this (Some (orEmpty filter))) options], Throw BSONError).
Proof.
  intros Hfind Hin Hthrow. unfold select, await, lift, bind. rewrite Hfind.
  now rewrite (array_map_throws_at (parseDocument this) BSONError documents document e
                 (parseDocument_throws this) Hin Hthrow).
Qed.

Module Examples.
(** A facade whose field [ref] holds identifiers, over a store that
    answers every [find] with a well-formed record and a malformed
    one. *)
Definition access : MongoDataAccess :=
  constructor "notes" (Some {| opt_fieldsProps := None; opt_idFields := Some [Exact "ref"] |}).

Definition good : Document := [("ref", VOid Scenario.X)].
Definition bad : Document := [("ref", VStr "not an identifier")].

Definition driver : Driver :=
  {| countDocuments := fun _ => Ok 2%Z;
     deleteMany := fun _ => Ok 2%Z;
     listCollections := fun name => Ok [name];
     collection_drop := Ok true;
     insertOne := fun _ => Ok (VOid Scenario.X);
     find := fun _ _ => Ok [good; bad];
     findOne := fun _ _ => Ok None;
     updateMany := fun _ _ => Ok 0%Z |}.
End Examples.

Lemma select_fails_on_one_record_witness :
  find Examples.driver (mapDataToDocument Examples.access (Some (orEmpty None))) None =
    Ok [Examples.good; Examples.bad] /\
  parseDocument Examples.access Examples.good =
    Ok [("ref", VStr "507f1f77bcf86cd799439011")] /\
  parseDocument Examples.access Examples.bad = Throw BSONError /\
  select Examples.access Examples.driver None None = ([Find [] None], Throw BSONError).
Proof.
  assert (Hbad : parseDocument Examples.access Examples.bad = Throw BSONError)
    by reflexivity.
  split; [reflexivity|]. split; [reflexivity|]. split; [exact Hbad|].
  apply (select_fails_on_one_record Examples.access Examples.driver None None
           [Examples.good; Examples.bad] Examples.bad BSONError eq_refl).
  - right. now left.
  - exact Hbad.
Defined.

(** X13.  Finding nothing is no error: when the driver finds no
    document, [selectOne] resolves to the absent marker and [select] to
    the empty sequence, whatever the selectors; and with no filter at all
    [select], [selectOne] and [update] send the empty filter, whatever the
    rename table. *)
Theorem nothing_found_and_no_filter `{Mongodb}
    (this : MongoDataAccess) (driver : Driver)
    (filter : option Document) (options : option FindOptions) (values : Document) :
  let parsedFilter := mapDataToDocument this (Some (orEmpty filter)) in
  (findOne driver parsedFilter options = Ok None ->
   selectOne this driver filter options = ([FindOne parsedFilter options], Ok None)) /\
  (find driver parsedFilter options = Ok [] ->
   select this driver filter options = ([Find parsedFilter options], Ok [])) /\
  calls (select this driver None options) = [Find [] options] /\
  calls (selectOne this driver None options) = [FindOne [] options] /\
  calls (update this driver None values) = [UpdateMany [] values].
Proof.
  intros parsedFilter. split; [|split; [|split; [|split]]].
  - intros Hnone. unfold selectOne, await, bind. fold parsedFilter. now rewrite Hnone.
  - intros Hnone. unfold select, await, lift, bind. fold parsedFilter. now rewrite Hnone.
  - now rewrite select_calls, mapDataToDocument_absent.
  - now rewrite selectOne_calls, mapDataToDocument_absent.
  - now rewrite update_calls, mapDataToDocument_absent.
Qed.

(** ** [parseStringsIDs] and [insert] on the object store *)

Section StoreCoercionFacts.
Context `{Mongodb}.
Variable this : MongoDataAccess.
Implicit Types (s : store) (r document : ref) (k key : string) (v : Value).

(** What one selector assigns to [document[key]], if anything. *)
Definition assigned (key : string) (v : Value) (selector : fieldSelector)
    : result (option Value) :=
  match selector with
  | RegExp matches =>
      if matches key then
        match v with
        | VArr items => rbind (array_map parseValue items) (fun l => Ok (Some (VArr l)))
        | _ => rbind (parseValue v) (fun v' => Ok (Some v'))
        end
      else Ok None
  | Exact name =>
      if String.eqb key name then rbind (parseValue v) (fun v' => Ok (Some v'))
      else Ok None
  end.

Lemma parseSelector_assigned key v (d : Document) selector :
  parseSelector key v d selector =
  rbind (assigned key v selector)
        (fun a => Ok (match a with Some v' => setProp key v' d | None => d end)).
Proof.
  destruct selector as [name|matches]; simpl.
  - destruct (String.eqb key name); [|reflexivity].
    now destruct (parseValue v).
  - destruct (matches key); [|reflexivity].
    destruct v as [| |b|n|s0|o|items|fields]; cbv iota;
      try (now destruct (parseValue _)).
    now destruct (array_map parseValue items).
Qed.

Lemma parseSelector_at_assigned key v document s selector :
  parseSelector_at key v document s selector =
  rbind (assigned key v selector)
        (fun a => Ok (match a with
                      | Some v' => modify s document (setProp key v')
                      | None => s
                      end)).
Proof.
  destruct selector as [name|matches]; simpl.
  - destruct (String.eqb key name); [|reflexivity].
    now destruct (parseValue v).
  - destruct (matches key); [|reflexivity].
    destruct v as [| |b|n|s0|o|items|fields]; cbv iota;
      try (now destruct (parseValue _)).
    now destruct (array_map parseValue items).
Qed.

(** The store [s'] is [s] with the object [document] replaced by [d']. *)
Definition replaced s s' document (d' : Document) : Prop :=
  length s' = length s /\
  deref s' document = d' /\
  forall r, r <> document -> deref s' r = deref s r.

Lemma replaced_refl s document : replaced s s document (deref s document).
Proof. repeat split. Qed.

Lemma replaced_trans s s1 s2 document d1 d2 :
  replaced s s1 document d1 -> replaced s1 s2 document d2 -> replaced s s2 document d2.
Proof.
  intros (Hl1 & _ & Ho1) (Hl2 & Hd2 & Ho2). repeat split; [congruence | exact Hd2 |].
  intros r Hr. rewrite (Ho2 r Hr). now apply Ho1.
Qed.

Lemma parseSelectors_at_spec key v selectors document : forall s,
  document < length s ->
  exists d',
    replaced s (fst (parseSelectors_at key v selectors document s)) document d' /\
    match parseSelectors key v selectors (deref s document) with
    | Ok d => snd (parseSelectors_at key v selectors document s) = None /\ d' = d
    | Throw e => snd (parseSelectors_at key v selectors document s) = Some e
    end.
Proof.
  induction selectors as [|sel selectors IH]; intros s Hlt; cbn [parseSelectors_at parseSelectors].
  - exists (deref s document). split; [apply replaced_refl | now split].
  - rewrite parseSelector_assigned, parseSelector_at_assigned.
    destruct (assigned key v sel) as [[v'|]|e]; cbn [rbind].
    + set (s1 := modify s document (setProp key v')).
      assert (Hstep : replaced s s1 document (setProp key v' (deref s document))).
      { subst s1. split; [apply modify_length|]. split.
        - now apply deref_modify_same.
        - intros r Hr. now apply deref_modify_other. }
      destruct (IH s1) as (d' & Hrep & Hres).
      { destruct Hstep as (Hl & _). now rewrite Hl. }
      exists d'. split; [now apply (replaced_trans s s1 _ document _ d' Hstep)|].
      destruct Hstep as (_ & Hd & _). now rewrite Hd in Hres.
    + now apply IH.
    + exists (deref s document). split; [apply replaced_refl | reflexivity].
Qed.

Lemma parseKeys_at_spec ks document : forall s,
  document < length s ->
  exists d',
    replaced s (fst (parseKeys_at this ks document s)) document d' /\
    match parseKeys this ks (deref s document) with
    | Ok d => snd (parseKeys_at this ks document s) = None /\ d' = d
    | Throw e => snd (parseKeys_at this ks document s) = Some e
    end.
Proof.
  induction ks as [|key ks IH]; intros s Hlt; cbn [parseKeys_at parseKeys].
  - exists (deref s document). split; [apply replaced_refl | now split].
  - destruct (parseSelectors_at_spec key (readProp (deref s document) key)
                (idFields this) document s Hlt) as (d1 & Hrep1 & Hres1).
    destruct (parseSelectors_at key (readProp (deref s document) key)
                (idFields this) document s) as [s1 thrown] eqn:Eat.
    cbn [fst snd] in Hrep1, Hres1.
    destruct (parseSelectors key (readProp (deref s document) key) (idFields this)
                (deref s document)) as [d|e]; cbn [rbind].
    + destruct Hres1 as [-> ->].
      destruct (IH s1) as (d' & Hrep & Hres).
      { destruct Hrep1 as (Hl & _). now rewrite Hl. }
      exists d'. split; [now apply (replaced_trans s s1 _ document d d' Hrep1)|].
      destruct Hrep1 as (_ & Hd & _). now rewrite Hd in Hres.
    + rewrite Hres1. exists d1. now split.
Qed.

(** The store after [mapDataToDocument]: the old objects as they were,
    and the new document, which holds what the function computes. *)
Lemma mapDataToDocument_at_frame s (data : option ref) :
  let s' := fst (mapDataToDocument_at this s data) in
  let document := snd (mapDataToDocument_at this s data) in
  (forall r, r < length s -> deref s' r = deref s r) /\
  length s <= document < length s' /\
  deref s' document = mapDataToDocument this (option_map (deref s) data).
Proof.
  destruct data as [input|].
  - unfold mapDataToDocument_at, mapDataToDocument. cbn [option_map].
    pose proof (assign_new_spec s input) as Hspec1. cbv zeta in Hspec1.
    destruct (assign_new s input) as [s1 dataObject]. cbn [fst snd] in Hspec1.
    destruct Hspec1 as (Ht1 & Hl1 & Ho1 & Hd1).
    pose proof (assign_new_spec s1 dataObject) as Hspec2. cbv zeta in Hspec2.
    destruct (assign_new s1 dataObject) as [s2 document]. cbn [fst snd] in Hspec2.
    destruct Hspec2 as (Ht2 & Hl2 & Ho2 & Hd2).
    assert (Hne : dataObject <> document) by lia.
    assert (Hlt : document < length s2) by lia.
    destruct (renameEntries_at_spec dataObject document (fieldsPropsMap this) s2 Hne Hlt)
      as (Hl3 & Ho3 & Hd3).
    cbv zeta.
    set (s3 := fold_left (renameEntry_at dataObject document) (fieldsPropsMap this) s2) in *.
    assert (Hrenamed : deref s3 document = renameFields this (deref s input)).
    { rewrite Hd3, Hd2, (Ho2 dataObject Hne), Hd1. reflexivity. }
    assert (Hframe : forall r, r < length s -> deref s3 r = deref s r).
    { intros r Hr. rewrite Ho3, Ho2, Ho1 by lia. reflexivity. }
    rewrite Hrenamed.
    destruct (isNullish (readProp (renameFields this (deref s input)) "_id"));
      cbn [fst snd].
    + split; [|split].
      * intros r Hr. rewrite deref_modify_other by lia. now apply Hframe.
      * rewrite modify_length. lia.
      * rewrite deref_modify_same by lia. now rewrite Hrenamed.
    + split; [exact Hframe|]. split; [lia | exact Hrenamed].
  - unfold mapDataToDocument_at, alloc. cbn [option_map mapDataToDocument fst snd].
    split; [|split].
    + intros r _. apply (deref_alloc s r).
    + rewrite length_app. simpl. lia.
    + unfold deref. rewrite nth_middle. reflexivity.
Qed.

Lemma parseStringsIDs_at_spec s document :
  document < length s ->
  let s' := fst (parseStringsIDs_at this s document) in
  length s' = length s /\
  (forall r, r <> document -> deref s' r = deref s r) /\
  match parseStringsIDs this (deref s document) with
  | Ok d' => snd (parseStringsIDs_at this s document) = Ok document /\
             deref s' document = d'
  | Throw e => snd (parseStringsIDs_at this s document) = Throw e
  end.
Proof.
  intros Hlt. unfold parseStringsIDs_at, parseStringsIDs.
  destruct (parseKeys_at_spec (keys (deref s document)) document s Hlt)
    as (d' & (Hl & Hd & Ho) & Hres).
  destruct (parseKeys_at this (keys (deref s document)) document s) as [s' thrown].
  cbn [fst snd] in *.
  split; [exact Hl|]. split; [exact Ho|].
  destruct (parseKeys this (keys (deref s document)) (deref s document)) as [d|e].
  - destruct Hres as [-> <-]. now split.
  - now rewrite Hres.
Qed.
End StoreCoercionFacts.

(** X14.  [parseStringsIDs] works on the object it is given: it returns
    that very object, which then holds the coerced document; no other
    object is written to; and when it throws, the other objects are as
    they were. *)
Theorem parseStringsIDs_in_place `{Mongodb} (this : MongoDataAccess)
    (s : store) (document : ref) :
  document < length s ->
  let s' := fst (parseStringsIDs_at this s document) in
  length s' = length s /\
  (forall r, r <> document -> deref s' r = deref s r) /\
  match parseStringsIDs this (deref s document) with
  | Ok d' => snd (parseStringsIDs_at this s document) = Ok document /\
             deref s' document = d'
  | Throw e => snd (parseStringsIDs_at this s document) = Throw e
  end.
Proof. apply parseStringsIDs_at_spec. Qed.

Lemma parseStringsIDs_in_place_witness :
  let s : store := [[("name", VStr "ann")];
                    [("_id", VStr "507f1f77bcf86cd799439011"); ("usr_name", VStr "ann")]] in
  1 < length s /\
  parseStringsIDs_at Scenario.access s 1 =
    ([[("name", VStr "ann")]; [("_id", VOid Scenario.X); ("usr_name", VStr "ann")]], Ok 1) /\
  deref (fst (parseStringsIDs_at Scenario.access s 1)) 0 = [("name", VStr "ann")].
Proof.
  intros s.
  assert (Hlt : 1 < length s) by (simpl; lia).
  split; [exact Hlt|]. split; [reflexivity|].
  destruct (parseStringsIDs_in_place Scenario.access s 1 Hlt) as (_ & Hother & _).
  now apply (Hother 0).
Defined.

(** X15.  [insert] does not touch the object it is given: whatever the
    value and whether or not the coercion throws, every object that
    exists when [insert] is called is as it was when [insertOne] is
    reached or the call has failed, and the driver calls and the outcome
    are those computed from the content of the argument. *)
Theorem insert_leaves_argument `{Mongodb} (this : MongoDataAccess) (driver : Driver)
    (s : store) (data : option ref) :
  (forall r, r < length s ->
             deref (fst (insert_at this driver s data)) r = deref s r) /\
  snd (insert_at this driver s data) = insert this driver (option_map (deref s) data).
Proof.
  unfold insert_at.
  destruct (mapDataToDocument_at_frame this s data) as (Hframe & Hfresh & Hdoc).
  destruct (mapDataToDocument_at this s data) as [s1 mappedData]. cbn [fst snd] in *.
  assert (Hlt : mappedData < length s1) by lia.
  destruct (parseStringsIDs_at_spec this s1 mappedData Hlt) as (Hl2 & Ho2 & Hres).
  destruct (parseStringsIDs_at this s1 mappedData) as [s2 parsed]. cbn [fst snd] in *.
  split.
  - intros r Hr. rewrite Ho2 by lia. now apply Hframe.
  - unfold insert, lift, bind. rewrite <- Hdoc.
    destruct (parseStringsIDs this (deref s1 mappedData)) as [d'|e].
    + destruct Hres as [-> Hd]. rewrite Hd. unfold await, resolve.
      destruct (insertOne driver d'); reflexivity.
    + rewrite Hres. reflexivity.
Qed.

(** ** What [drop] resolves to *)

(** X16.  Whenever [drop] resolves, it resolves to the flag it was
    given; and the collection is dropped only after a confirmed call whose
    listing answered with exactly one collection. *)
Theorem drop_resolves_to_flag `{Mongodb}
    (this : MongoDataAccess) (driver : Driver) (sure : bool) :
  (forall b, outcome (drop this driver sure) = Ok b -> b = sure) /\
  (In DropCollection (calls (drop this driver sure)) ->
   sure = true /\
   exists c, listCollections driver (collectionName this) = Ok [c]).
Proof.
  unfold drop, await, reject, resolve, bind, outcome, calls.
  destruct sure; cbn [fst snd].
  - destruct (listCollections driver (collectionName this)) as [[|c1 [|c2 rest]]|e];
      cbn [length Nat.ltb Nat.leb Nat.eqb fst snd app].
    + split; [now intros b [= <-]|]. intros [Hc|[]]. discriminate Hc.
    + destruct (collection_drop driver) as [dropped|e]; cbn [fst snd app].
      * split; [now intros b [= <-]|]. intros _. split; [reflexivity | now exists c1].
      * split; [discriminate|]. intros _. split; [reflexivity | now exists c1].
    + split; [discriminate|]. intros [Hc|[]]. discriminate Hc.
    + split; [discriminate|]. intros [Hc|[]]. discriminate Hc.
  - split; [now intros b [= <-]|]. intros [].
Qed.
